(** * slack_ldap_sync: a shallow embedding of [slack_ldap_sync.py]

    The script reconciles the accounts of a Slack workspace against an
    LDAP directory.  This development embeds its functions as Rocq
    functions and proves properties of one reconciliation cycle
    ([sync_slack_ldap]), of the directory enumeration
    ([get_all_active_ad_users]) and of the supervising loop of the
    [__main__] block.

    Modelling conventions.
    - Values decoded from JSON are [pyval]s; Python dictionaries built by
      the script itself are [gmap]s.  The iteration order of a Python 2
      dictionary is unspecified: the embedding iterates in the order of
      [map_to_list], and every general statement about a loop quantifies
      over the list that is iterated.
    - The script runs under Python 2 and handles two kinds of strings.
      The values that python-ldap returns are byte strings: a [string]
      is then the sequence of the bytes, and [lower] is [str.lower] in
      the C locale, which changes the ASCII letters only.  The strings
      decoded from JSON are unicode objects: a [string] is then the
      sequence of the code points, all below 256 (text with higher code
      points is outside the model), and [ulower] is [unicode.lower] on
      that range.  A unicode key finds a byte-string key in a dictionary
      only when both are the same ASCII string ([get_by_text]).
    - JSON numbers are integers.
    - A raised exception is a [Raise e] result.  The script raises bare
      [Exception(msg)] objects; the two messages it uses are named
      [PagingUnsupported] and [FailsafeExceeded].
    - Network effects are recorded in a trace of [event]s (a writer
      monad, [M]); what the network answers is read from a [world]. *)

From Stdlib Require Import PrimFloat SpecFloat FloatOps ZArith Ascii String.
From stdpp Require Import gmap strings list fin_maps.

Local Open Scope string_scope.
Local Open Scope list_scope.
Local Set Warnings "-register-all,-clear-no-such-hyp".

(* ===================================================================== *)
(** ** Exceptions and results *)
(* ===================================================================== *)

Inductive exn : Type :=
| KeyError
| IndexError
| TypeError
| AttributeError
| ZeroDivisionError
| HTTPError          (* requests: transport failure, raise_for_status, bad body *)
| LDAPError          (* python-ldap: bind, search or result failure *)
| Exception (msg : string).

(** line 91 *)
Definition PagingUnsupported : exn :=
  Exception "AD query Warning: Server ignores RFC 2696 control.".

(** line 177 *)
Definition FailsafeExceeded : exn :=
  Exception "The failsafe threshold for deleting too many slack users was reached. No users were deleted.".

Inductive result (A : Type) : Type :=
| Ok (a : A)
| Raise (e : exn).
Arguments Ok {A} a.
Arguments Raise {A} e.

Definition bindR {A B} (r : result A) (k : A → result B) : result B :=
  match r with
  | Ok a => k a
  | Raise e => Raise e
  end.

Notation "'let?' x ':=' r 'in' k" := (bindR r (fun x => k))
  (at level 10, x name, r at level 100, k at level 200).

Definition is_ok {A} (r : result A) : bool :=
  match r with Ok _ => true | Raise _ => false end.

(* ===================================================================== *)
(** ** Python values *)
(* ===================================================================== *)

Inductive pyval : Type :=
| PNone
| PBool (b : bool)
| PInt (z : Z)
| PStr (s : string)
| PList (l : list pyval)
| PDict (d : list (string * pyval)).

(** Hashable values, as used for the keys of [guest_users] and
    [owner_users]; [True == 1] and [False == 0] as dictionary keys. *)
Inductive pykey : Type :=
| KNone
| KInt (z : Z)
| KStr (s : string).

Global Instance pykey_eq_dec : EqDecision pykey.
Proof. solve_decision. Defined.

Definition pykey_encode (k : pykey) : unit + Z + string :=
  match k with
  | KNone => inl (inl tt)
  | KInt z => inl (inr z)
  | KStr s => inr s
  end.

Definition pykey_decode (x : unit + Z + string) : pykey :=
  match x with
  | inl (inl _) => KNone
  | inl (inr z) => KInt z
  | inr s => KStr s
  end.

Global Instance pykey_countable : Countable pykey.
Proof.
  apply (inj_countable' pykey_encode pykey_decode).
  intros []; reflexivity.
Defined.

(** [hash(v)]: lists and dictionaries are unhashable. *)
Definition hash_key (v : pyval) : result pykey :=
  match v with
  | PNone => Ok KNone
  | PBool b => Ok (KInt (if b then 1 else 0))
  | PInt z => Ok (KInt z)
  | PStr s => Ok (KStr s)
  | PList _ | PDict _ => Raise TypeError
  end.

(** [bool(v)] *)
Definition truthy (v : pyval) : bool :=
  match v with
  | PNone => false
  | PBool b => b
  | PInt z => negb (z =? 0)%Z
  | PStr s => negb (String.eqb s "")
  | PList l => match l with [] => false | _ => true end
  | PDict d => match d with [] => false | _ => true end
  end.

Fixpoint assoc (k : string) (d : list (string * pyval)) : option pyval :=
  match d with
  | [] => None
  | (k', v) :: d' => if String.eqb k k' then Some v else assoc k d'
  end.

(** [v[k]] for a string [k] *)
Definition getitem_key (v : pyval) (k : string) : result pyval :=
  match v with
  | PDict d => match assoc k d with
               | Some x => Ok x
               | None => Raise KeyError
               end
  | _ => Raise TypeError
  end.

(** [v[0]] *)
Definition getitem_0 (v : pyval) : result pyval :=
  match v with
  | PList l => match l with
               | x :: _ => Ok x
               | [] => Raise IndexError
               end
  | PStr s => match s with
              | String c _ => Ok (PStr (String c EmptyString))
              | EmptyString => Raise IndexError
              end
  | PDict _ => Raise KeyError
  | _ => Raise TypeError
  end.

(** [v.get(k)] *)
Definition py_get (v : pyval) (k : string) : result pyval :=
  match v with
  | PDict d => Ok (default PNone (assoc k d))
  | _ => Raise AttributeError
  end.

Fixpoint chars (s : string) : list pyval :=
  match s with
  | EmptyString => []
  | String c s' => PStr (String c EmptyString) :: chars s'
  end.

(** [for x in v] *)
Definition py_iter (v : pyval) : result (list pyval) :=
  match v with
  | PList l => Ok l
  | PStr s => Ok (chars s)
  | PDict d => Ok (map (λ kv, PStr (fst kv)) d)
  | _ => Raise TypeError
  end.

(** [len(v)] *)
Definition py_len (v : pyval) : result nat :=
  match v with
  | PList l => Ok (length l)
  | PStr s => Ok (String.length s)
  | PDict d => Ok (length d)
  | _ => Raise TypeError
  end.

Definition lower_ascii (c : ascii) : ascii :=
  let n := nat_of_ascii c in
  if (65 <=? n)%nat && (n <=? 90)%nat then ascii_of_nat (n + 32) else c.

Fixpoint lower (s : string) : string :=
  match s with
  | EmptyString => EmptyString
  | String c s' => String (lower_ascii c) (lower s')
  end.

(** [unicode.lower] on a code point below 256: the ASCII capitals and
    the capitals U+00C0-U+00DE of Latin-1 (U+00D7, the multiplication
    sign, has no case). *)
Definition lower_unicode (c : ascii) : ascii :=
  let n := nat_of_ascii c in
  if ((65 <=? n)%nat && (n <=? 90)%nat)
     || ((192 <=? n)%nat && (n <=? 222)%nat && negb (n =? 215)%nat)
  then ascii_of_nat (n + 32) else c.

Fixpoint ulower (s : string) : string :=
  match s with
  | EmptyString => EmptyString
  | String c s' => String (lower_unicode c) (ulower s')
  end.

(** [v.lower()] on a value decoded from JSON *)
Definition py_lower (v : pyval) : result string :=
  match v with
  | PStr s => Ok (ulower s)
  | _ => Raise AttributeError
  end.

Fixpoint is_ascii (s : string) : bool :=
  match s with
  | EmptyString => true
  | String c s' => (nat_of_ascii c <? 128)%nat && is_ascii s'
  end.

(** [d.get(key)] for a unicode [key] and a dictionary [d] whose keys
    are byte strings: a unicode object is equal to a byte string (and
    has its hash) only when the byte string is ASCII and has the same
    characters. *)
Definition get_by_text {V} (d : gmap string V) (key : string) : option V :=
  if is_ascii key then d !! key else None.

(** [needle in hay] on strings *)
Fixpoint contains (needle hay : string) : bool :=
  String.prefix needle hay ||
  match hay with
  | EmptyString => false
  | String _ hay' => contains needle hay'
  end.

(** [float(n)]: the binary64 value nearest to [n]. *)
Definition float_of_nat (n : nat) : float :=
  SF2Prim (binary_normalize prec emax (Z.of_nat n) 0 false).

(* ===================================================================== *)
(** ** Effects *)
(* ===================================================================== *)

Inductive endpoint : Type :=
| UsersList          (* slack_subdomain/api/users.list *)
| ScimUsers          (* slack_api_host/scim/v1/Users *)
| LegacyUsersList.   (* slack_api_host/api/users.list *)

(** The texts the script composes; their rendering with [%] and
    [format] is kept symbolic. *)
Inductive text : Type :=
| DisabledText (slack_id : pyval) (slack_email reason : string)   (* line 143 *)
| InvalidText (slack_id : pyval) (slack_email reason : string)    (* line 188 *)
| ErrorText (error : exn)                                         (* line 207 *)
| LookingText                                                     (* line 150 *)
| SleepingText.                                                   (* line 210 *)

Inductive event : Type :=
| EvHttpGet (ep : endpoint)
| EvLdapBind
| EvLdapSearch (cookie : string)
| EvLdapResult
| EvLdapUnbind
| EvScimDelete (slack_id : pyval)
| EvPostMessage (channel : pykey) (message : text)
| EvLogInfo (message : text)
| EvLogException (error : exn)
| EvSleep.

Definition M (A : Type) : Type := list event * result A.

Definition ret {A} (a : A) : M A := ([], Ok a).
Definition raise {A} (e : exn) : M A := ([], Raise e).
Definition lift {A} (r : result A) : M A := ([], r).
Definition tell (ev : event) : M unit := ([ev], Ok tt).

Definition bindM {A B} (m : M A) (k : A → M B) : M B :=
  match m with
  | (t, Ok a) => let '(t', r) := k a in ((t ++ t')%list, r)
  | (t, Raise e) => (t, Raise e)
  end.

Notation "'let*' x ':=' m 'in' k" := (bindM m (fun x => k))
  (at level 10, x name, m at level 100, k at level 200).
Notation "m1 ';;;' m2" := (bindM m1 (fun _ => m2))
  (at level 100, m2 at level 200, right associativity).

(* ===================================================================== *)
(** ** The outside world *)
(* ===================================================================== *)

Record ldap_control : Type := {
  controlType : string;
  cookie : string
}.

Record ldap_entry : Type := {
  dn : string;
  attrs : gmap string (list string)
}.

(** What one [result3] call returns ([rdata] and [serverctrls]). *)
Record ldap_response : Type := {
  rdata : list ldap_entry;
  serverctrls : list ldap_control
}.

(** What the network answers during one iteration of the main loop.
    An HTTP exchange is the decoded body, or the exception raised by
    the request, by [raise_for_status] or by [json()]. *)
Record world : Type := {
  guests_response : result pyval;       (* users.list, in get_guest_users *)
  owners_response : result pyval;       (* users.list, in get_owner_users *)
  scim_response : result pyval;         (* scim/v1/Users *)
  legacy_response : result pyval;       (* api/users.list *)
  ldap_bind_ok : bool;                  (* simple_bind_s *)
  ldap_pages : list ldap_response;      (* successive result3 answers; then failure *)
  scim_delete_ok : pyval → bool;        (* DELETE scim/v1/Users/<id> *)
  post_message_ok : pykey → text → bool;(* chat.postMessage *)
  handler_owners_response : result pyval(* users.list, in the except block *)
}.

Record config : Type := {
  max_delete_failsafe : float;
  use_scim_api : bool
}.

(* ===================================================================== *)
(** ** Slack listings (lines 40-54, 97-119) *)
(* ===================================================================== *)

(** One GET followed by [raise_for_status], [json()] and a subscript. *)
Definition http_get_json (ep : endpoint) (response : result pyval) (field : string)
  : M pyval :=
  tell (EvHttpGet ep);;;
  let* results := lift response in
  lift (getitem_key results field).

Definition get_all_slack_users_scim (w : world) : M pyval :=
  http_get_json ScimUsers (scim_response w) "Resources".

Definition get_all_slack_users (w : world) : M pyval :=
  http_get_json LegacyUsersList (legacy_response w) "members".

(** Body of the loop of [get_guest_users] (lines 103-106). *)
Definition guest_step (guest_users : gmap pykey pyval) (user : pyval)
  : result (gmap pykey pyval) :=
  let? ultra := py_get user "is_ultra_restricted" in
  let? guest := (if truthy ultra then Ok true
                 else let? r := py_get user "is_restricted" in Ok (truthy r)) in
  if guest : bool then
    let? profile := getitem_key user "profile" in
    let? email := getitem_key profile "email" in
    let? id := getitem_key user "id" in
    let? k := hash_key id in
    Ok (<[k := email]> guest_users)
  else Ok guest_users.

(** Body of the loop of [get_owner_users] (lines 116-118). *)
Definition owner_step (owner_users : gmap pykey pyval) (user : pyval)
  : result (gmap pykey pyval) :=
  let? o := py_get user "is_owner" in
  if truthy o then
    let? profile := getitem_key user "profile" in
    let? email := getitem_key profile "email" in
    let? id := getitem_key user "id" in
    let? k := hash_key id in
    Ok (<[k := email]> owner_users)
  else Ok owner_users.

(** A [for] loop that threads an accumulator and stops at the first
    exception. *)
Fixpoint for_each {A S} (step : S → A → result S) (acc : S) (l : list A) : result S :=
  match l with
  | [] => Ok acc
  | x :: l' => let? acc' := step acc x in for_each step acc' l'
  end.

Definition get_guest_users (response : result pyval) : M (gmap pykey pyval) :=
  let* users := http_get_json UsersList response "members" in
  lift (let? us := py_iter users in for_each guest_step ∅ us).

Definition get_owner_users (response : result pyval) : M (gmap pykey pyval) :=
  let* users := http_get_json UsersList response "members" in
  lift (let? us := py_iter users in for_each owner_step ∅ us).

(* ===================================================================== *)
(** ** Directory enumeration (lines 57-94) *)
(* ===================================================================== *)

(** [SimplePagedResultsControl.controlType] *)
Definition paged_results_oid : string := "1.2.840.113556.1.4.319".

(** Lines 74-77. *)
Definition ingest_entry (all_ad_users : gmap string bool) (entry : ldap_entry)
  : result (gmap string bool) :=
  match attrs entry !! "mail" with
  | None => Ok all_ad_users
  | Some [] => Raise IndexError
  | Some (email :: _) =>
      if String.eqb email "" then Ok all_ad_users
      else Ok (<[lower email := true]> all_ad_users)
  end.

(** Lines 78-82. *)
Definition pctrls (r : ldap_response) : list ldap_control :=
  filter (λ c, controlType c = paged_results_oid) (serverctrls r).

(** The [while True] loop (lines 71-92): one iteration per answer of
    [result3].  When the server has no further answer, [result3]
    raises. *)
Fixpoint paged_loop (pages : list ldap_response) (all_ad_users : gmap string bool)
  : M (gmap string bool) :=
  match pages with
  | [] => tell EvLdapResult;;; raise LDAPError
  | r :: pages' =>
      tell EvLdapResult;;;
      let* all_ad_users := lift (for_each ingest_entry all_ad_users (rdata r)) in
      match pctrls r with
      | c :: _ =>
          if String.eqb (cookie c) "" then ret all_ad_users
          else tell (EvLdapSearch (cookie c));;; paged_loop pages' all_ad_users
      | [] => raise PagingUnsupported
      end
  end.

Definition get_all_active_ad_users (w : world) : M (gmap string bool) :=
  tell EvLdapBind;;;
  (if ldap_bind_ok w then ret tt else raise LDAPError);;;
  tell (EvLdapSearch "");;;
  let* all_ad_users := paged_loop (ldap_pages w) ∅ in
  tell EvLdapUnbind;;;
  ret all_ad_users.

(* ===================================================================== *)
(** ** Notification and revocation (lines 122-146, 187-191) *)
(* ===================================================================== *)

(** The loop of [slack_message_owners] over [owners.keys()]. *)
Fixpoint message_loop (w : world) (message : text) (keys : list pykey) : M unit :=
  match keys with
  | [] => ret tt
  | owner :: keys' =>
      tell (EvPostMessage owner message);;;
      (if post_message_ok w owner message then ret tt else raise HTTPError);;;
      message_loop w message keys'
  end.

Definition slack_message_owners (w : world) (message : text)
    (owners : gmap pykey pyval) : M bool :=
  message_loop w message (map fst (map_to_list owners));;;
  ret true.

Definition disable_slack_user (w : world) (slack_id : pyval)
    (slack_email reason : string) (owners : gmap pykey pyval) : M bool :=
  tell (EvScimDelete slack_id);;;
  (if scim_delete_ok w slack_id then ret tt else raise HTTPError);;;
  let log_msg := DisabledText slack_id slack_email reason in
  tell (EvLogInfo log_msg);;;
  slack_message_owners w log_msg owners;;;
  ret true.

Definition notify_admin_invalid_user (w : world) (slack_id : pyval)
    (slack_email reason : string) (owners : gmap pykey pyval) : M unit :=
  let log_msg := InvalidText slack_id slack_email reason in
  tell (EvLogInfo log_msg);;;
  slack_message_owners w log_msg owners;;;
  ret tt.

(* ===================================================================== *)
(** ** One reconciliation cycle (lines 149-184) *)
(* ===================================================================== *)

(** A value of [slack_users_to_be_deleted]. *)
Record deletion : Type := {
  slack_id : pyval;
  reason : string
}.

(** Body of the collecting loop (lines 162-171). *)
Definition collect_step (guest_users : gmap pykey pyval)
    (all_ad_users : gmap string bool)
    (slack_users_to_be_deleted : gmap string deletion) (slack_user : pyval)
  : result (gmap string deletion) :=
  let? emails := getitem_key slack_user "emails" in
  let? first := getitem_0 emails in
  let? value := getitem_key first "value" in
  let? slack_user_email := py_lower value in
  let? active := getitem_key slack_user "active" in
  if negb (truthy active) then Ok slack_users_to_be_deleted
  else
    let? id := getitem_key slack_user "id" in
    let? k := hash_key id in
    if truthy (default PNone (guest_users !! k))
       || contains "@slack-bots.com" slack_user_email
    then Ok slack_users_to_be_deleted
    else if negb (default false (get_by_text all_ad_users slack_user_email))
    then Ok (<[slack_user_email :=
                 {| slack_id := id; reason := "they do not exist in corp LDAP." |}]>
             slack_users_to_be_deleted)
    else Ok slack_users_to_be_deleted.

(** Lines 158-171. *)
Definition collect (guest_users : gmap pykey pyval) (all_ad_users : gmap string bool)
    (all_slack_users : pyval) : result (gmap string deletion) :=
  let? users := py_iter all_slack_users in
  for_each (collect_step guest_users all_ad_users) ∅ users.

(** Line 173: [float(len(d)) / len(all_slack_users)]. *)
Definition percent (deleted total : nat) : result float :=
  match total with
  | O => Raise ZeroDivisionError
  | _ => Ok (PrimFloat.div (float_of_nat deleted) (float_of_nat total))
  end.

(** Lines 173-177. *)
Definition failsafe (cfg : config) (slack_users_to_be_deleted : gmap string deletion)
    (all_slack_users : pyval) : result unit :=
  let? total := py_len all_slack_users in
  let? percent_slack_users_deleted := percent (size slack_users_to_be_deleted) total in
  if PrimFloat.ltb (max_delete_failsafe cfg) percent_slack_users_deleted
  then Raise FailsafeExceeded
  else Ok tt.

(** Body of the acting loop (lines 181-184). *)
Definition act_on (cfg : config) (w : world) (owners : gmap pykey pyval)
    (item : string * deletion) : M unit :=
  let '(slack_email, value) := item in
  if use_scim_api cfg
  then disable_slack_user w (slack_id value) slack_email (reason value) owners;;; ret tt
  else notify_admin_invalid_user w (slack_id value) slack_email (reason value) owners.

(** Lines 180-184, over the items in iteration order. *)
Fixpoint act_loop (cfg : config) (w : world) (owners : gmap pykey pyval)
    (items : list (string * deletion)) : M unit :=
  match items with
  | [] => ret tt
  | item :: items' => act_on cfg w owners item;;; act_loop cfg w owners items'
  end.

(** Lines 153-156: the account listing of the configured mode. *)
Definition listing (cfg : config) (w : world) : M pyval :=
  if use_scim_api cfg then get_all_slack_users_scim w else get_all_slack_users w.

(** Lines 151-157: the four reads. *)
Definition fetch (cfg : config) (w : world)
  : M (gmap pykey pyval * gmap pykey pyval * pyval * gmap string bool) :=
  let* guest_users := get_guest_users (guests_response w) in
  let* all_slack_owners := get_owner_users (owners_response w) in
  let* all_slack_users := listing cfg w in
  let* all_ad_users := get_all_active_ad_users w in
  ret (guest_users, all_slack_owners, all_slack_users, all_ad_users).

(** Lines 158-177: the candidates, once the failsafe has let them through. *)
Definition reconcile (cfg : config) (guest_users : gmap pykey pyval)
    (all_slack_users : pyval) (all_ad_users : gmap string bool)
  : result (gmap string deletion) :=
  let? slack_users_to_be_deleted := collect guest_users all_ad_users all_slack_users in
  let? _ := failsafe cfg slack_users_to_be_deleted all_slack_users in
  Ok slack_users_to_be_deleted.

(** Lines 150-177: everything up to and including the failsafe. *)
Definition candidates (cfg : config) (w : world)
  : M (gmap pykey pyval * gmap string deletion) :=
  tell (EvLogInfo LookingText);;;
  let* inputs := fetch cfg w in
  let '(guest_users, all_slack_owners, all_slack_users, all_ad_users) := inputs in
  let* slack_users_to_be_deleted :=
    lift (reconcile cfg guest_users all_slack_users all_ad_users) in
  ret (all_slack_owners, slack_users_to_be_deleted).

Definition sync_slack_ldap (cfg : config) (w : world) : M unit :=
  let* found := candidates cfg w in
  act_loop cfg w (fst found) (map_to_list (snd found)).

(* ===================================================================== *)
(** ** The main loop (lines 197-212) *)
(* ===================================================================== *)

(** Lines 207-209. *)
Definition escalate (w : world) (error : exn) : M unit :=
  let* owners := get_owner_users (handler_owners_response w) in
  slack_message_owners w (ErrorText error) owners;;;
  ret tt.

(** The [except] block (lines 203-209); returns the new counter. *)
Definition handler (w : world) (error : exn) (error_counter : nat) : M nat :=
  tell (EvLogException error);;;
  let error_counter := error_counter + 1 in
  (if (error_counter mod 48 =? 4)%nat then escalate w error else ret tt);;;
  ret error_counter.

(** One iteration of [while True]; [Raise] means the exception leaves
    the loop. *)
Definition iteration (cfg : config) (w : world) (error_counter : nat) : M nat :=
  let* error_counter :=
    match sync_slack_ldap cfg w with
    | (t, Ok _) => (t, Ok 0)
    | (t, Raise error) => (t, Ok tt);;; handler w error error_counter
    end in
  tell (EvLogInfo SleepingText);;;
  tell EvSleep;;;
  ret error_counter.

(** The first [length worlds] iterations of the loop. *)
Fixpoint main_loop (cfg : config) (worlds : list world) (error_counter : nat) : M nat :=
  match worlds with
  | [] => ret error_counter
  | w :: worlds' =>
      let* error_counter := iteration cfg w error_counter in
      main_loop cfg worlds' error_counter
  end.


(* ===================================================================== *)
(** ** Observations on traces and results *)
(* ===================================================================== *)

(** Events that change the workspace or write to its owners. *)
Definition mutation (ev : event) : bool :=
  match ev with
  | EvScimDelete _ | EvPostMessage _ _ => true
  | _ => false
  end.

Definition quiet (t : list event) : Prop := Forall (λ ev, mutation ev = false) t.

(** Events of the reading phase. *)
Definition read_event (ev : event) : bool :=
  match ev with
  | EvHttpGet _ | EvLdapBind | EvLdapSearch _ | EvLdapResult | EvLdapUnbind => true
  | _ => false
  end.

Definition reads (t : list event) : Prop := Forall (λ ev, read_event ev = true) t.

(** The only exception of the acting phase is a failed HTTP exchange. *)
Definition raises_only {A} (P : exn → Prop) (m : M A) : Prop :=
  ∀ e, m.2 = Raise e → P e.

(** [percent_slack_users_deleted > max_delete_failsafe] *)
Definition over_failsafe (cfg : config) (deleted total : nat) : bool :=
  PrimFloat.ltb (max_delete_failsafe cfg)
                (PrimFloat.div (float_of_nat deleted) (float_of_nat total)).

(** The directory identity contributed by one entry (lines 75-77). *)
Definition identity (entry : ldap_entry) : option string :=
  match attrs entry !! "mail" with
  | Some (email :: _) => if String.eqb email "" then None else Some (lower email)
  | _ => None
  end.

Definition identities (r : ldap_response) : list string := omap identity (rdata r).

(** An entry on which [entry[1]['mail'][0]] is defined. *)
Definition entry_ok (entry : ldap_entry) : bool :=
  match attrs entry !! "mail" with
  | Some [] => false
  | _ => true
  end.

Definition page_ok (r : ldap_response) : bool := forallb entry_ok (rdata r).

(** The cookie of the paging control of a response, if it carries one. *)
Definition paging_cookie (r : ldap_response) : option string :=
  cookie <$> head (pctrls r).

Definition continues (r : ldap_response) : bool :=
  match paging_cookie r with
  | Some c => negb (String.eqb c "")
  | None => false
  end.

Definition stops (r : ldap_response) : bool := negb (continues r).

(** The dictionary whose keys are the elements of [ids]. *)
Definition directory (ids : list string) : gmap string bool :=
  gset_to_gmap true (list_to_set ids).

(** Every key is lower-case and is mapped to [True]. *)
Definition normalized (all_ad_users : gmap string bool) : Prop :=
  ∀ k v, all_ad_users !! k = Some v → v = true ∧ lower k = k.

(** The emails that the accounts of [users] contribute, with
    repetitions, in snapshot order. *)
Definition absent_emails (g : gmap pykey pyval) (ad : gmap string bool)
    (users : list pyval) : list string :=
  users ≫= λ u, match collect_step g ad ∅ u with
                | Ok m => elements (dom m)
                | Raise _ => []
                end.

(** [slack_user['emails'][0]['value'].lower()] *)
Definition email_of (slack_user : pyval) : result string :=
  let? emails := getitem_key slack_user "emails" in
  let? first := getitem_0 emails in
  let? value := getitem_key first "value" in
  py_lower value.

(** [slack_user['emails'][0]['value']], before it is lower-cased. *)
Definition email_value (slack_user : pyval) : result pyval :=
  let? emails := getitem_key slack_user "emails" in
  let? first := getitem_0 emails in
  getitem_key first "value".

(** The UTF-8 bytes of a text of code points below 256, as LDAP
    transmits it. *)
Definition utf8_char (c : ascii) : string :=
  let n := nat_of_ascii c in
  if (n <? 128)%nat then String c EmptyString
  else String (ascii_of_nat (192 + n / 64))
         (String (ascii_of_nat (128 + n mod 64)) EmptyString).

Fixpoint utf8 (s : string) : string :=
  match s with
  | EmptyString => EmptyString
  | String c s' => utf8_char c +:+ utf8 s'
  end.

(** [guest_users.get(slack_user['id'])] *)
Definition guest_email (guest_users : gmap pykey pyval) (slack_user : pyval)
  : result pyval :=
  let? id := getitem_key slack_user "id" in
  let? k := hash_key id in
  Ok (default PNone (guest_users !! k)).

Definition is_delete (ev : event) : bool :=
  match ev with EvScimDelete _ => true | _ => false end.

Definition is_post (ev : event) : bool :=
  match ev with EvPostMessage _ _ => true | _ => false end.

(** Events that a cycle itself can produce: everything but the log of
    the [except] block, the messages it sends and the sleep. *)
Definition cycle_event (ev : event) : bool :=
  match ev with
  | EvLogException _ | EvSleep | EvPostMessage _ (ErrorText _) => false
  | _ => true
  end.

Definition cycle_trace (t : list event) : Prop := Forall (λ ev, cycle_event ev = true) t.

(** What follows the log of the [except] block in a trace. *)
Fixpoint after_exception (t : list event) : list event :=
  match t with
  | [] => []
  | EvLogException _ :: t' => t'
  | _ :: t' => after_exception t'
  end.

(** The [except] block fetched the owners. *)
Definition escalation_attempted (t : list event) : bool :=
  existsb (λ ev, match ev with EvHttpGet UsersList => true | _ => false end)
          (after_exception t).

(** The recipients of the messages of the [except] block. *)
Definition escalation_posts (t : list event) : list pykey :=
  omap (λ ev, match ev with
              | EvPostMessage channel (ErrorText _) => Some channel
              | _ => None
              end) t.

Definition is_sleep (ev : event) : bool :=
  match ev with EvSleep => true | _ => false end.

(** [user.get('is_ultra_restricted') or user.get('is_restricted')]
    (line 105). *)
Definition is_guest_member (user : pyval) : bool :=
  match py_get user "is_ultra_restricted", py_get user "is_restricted" with
  | Ok ultra, Ok restricted => truthy ultra || truthy restricted
  | _, _ => false
  end.

(** [user.get('is_owner')] (line 117). *)
Definition is_owner_member (user : pyval) : bool :=
  match py_get user "is_owner" with
  | Ok owner => truthy owner
  | Raise _ => false
  end.

(** The dictionary key made of [user['id']]. *)
Definition member_key (user : pyval) : result pykey :=
  let? id := getitem_key user "id" in hash_key id.

(** [user['profile']['email']] *)
Definition member_email (user : pyval) : result pyval :=
  let? profile := getitem_key user "profile" in getitem_key profile "email".

(** The value that line 171 stores for an account. *)
Definition deletion_of (id : pyval) : deletion :=
  {| slack_id := id; reason := "they do not exist in corp LDAP." |}.

(** The account [u], of lower-cased email [k] and id [id], passes the
    four tests of lines 164-170. *)
Definition qualifies (g : gmap pykey pyval) (ad : gmap string bool)
    (u : pyval) (k : string) (id : pyval) : Prop :=
  email_of u = Ok k
  ∧ (∃ active, getitem_key u "active" = Ok active ∧ truthy active = true)
  ∧ getitem_key u "id" = Ok id
  ∧ (∃ listed, guest_email g u = Ok listed ∧ truthy listed = false)
  ∧ contains "@slack-bots.com" k = false
  ∧ default false (get_by_text ad k) = false.

(** The ids of the DELETE requests of a trace, in order. *)
Definition deleted_ids (t : list event) : list pyval :=
  omap (λ ev, match ev with EvScimDelete id => Some id | _ => None end) t.

(** The recipients of the messages of a trace, in order. *)
Definition recipients (t : list event) : list pykey :=
  omap (λ ev, match ev with EvPostMessage channel _ => Some channel | _ => None end) t.

(** The number of [time.sleep] calls of a trace. *)
Definition sleeps (t : list event) : nat :=
  length (filter (λ ev, is_sleep ev = true) t).

(** The cookie that line 86 copies into the next request. *)
Definition next_cookie (r : ldap_response) : string :=
  default "" (paging_cookie r).

Definition is_ldap (ev : event) : bool :=
  match ev with
  | EvLdapBind | EvLdapSearch _ | EvLdapResult | EvLdapUnbind => true
  | _ => false
  end.

(* ===================================================================== *)
(** ** Example data *)
(* ===================================================================== *)

Module Examples.

(** A record of the account listing. *)
Definition account (id email : string) (active : bool) : pyval :=
  PDict [("id", PStr id);
         ("emails", PList [PDict [("value", PStr email)]]);
         ("active", PBool active)].

(** A record of [users.list]. *)
Definition member (id email : string) (restricted owner : bool) : pyval :=
  PDict [("id", PStr id);
         ("profile", PDict [("email", PStr email)]);
         ("is_restricted", PBool restricted);
         ("is_owner", PBool owner)].

Definition entry (mail : string) : ldap_entry :=
  {| dn := "cn=" +:+ mail; attrs := {["mail" := [mail]]} |}.

Definition paged (ck : string) : ldap_control :=
  {| controlType := paged_results_oid; cookie := ck |}.

Definition page (mails : list string) (ctrls : list ldap_control) : ldap_response :=
  {| rdata := entry <$> mails; serverctrls := ctrls |}.

Definition staff : list pyval :=
  [account "U1" "A@X.com" true; account "U2" "b@x.com" true;
   account "U3" "a@x.com" true; account "U4" "a@x.com" true;
   account "U5" "a@x.com" true; account "U6" "a@x.com" true;
   account "U7" "a@x.com" true; account "U8" "a@x.com" true;
   account "U9" "a@x.com" true; account "U10" "c@x.com" true].

Definition members : pyval :=
  PDict [("members", PList [member "O1" "boss@x.com" false true;
                            member "O2" "chief@x.com" false true])].

(** A healthy workspace: ten accounts, two of them unknown to the
    directory, two owners. *)
Definition healthy : world :=
  {| guests_response := Ok members;
     owners_response := Ok members;
     scim_response := Ok (PDict [("Resources", PList staff)]);
     legacy_response := Ok (PDict [("members", PList staff)]);
     ldap_bind_ok := true;
     ldap_pages := [page ["a@x.com"] [paged ""]];
     scim_delete_ok := λ _, true;
     post_message_ok := λ _ _, true;
     handler_owners_response := Ok members |}.

(** A workspace with the given account records and directory mails,
    where every request succeeds. *)
Definition workspace (accounts : list pyval) (mails : list string) : world :=
  {| guests_response := Ok members;
     owners_response := Ok members;
     scim_response := Ok (PDict [("Resources", PList accounts)]);
     legacy_response := Ok (PDict [("members", PList accounts)]);
     ldap_bind_ok := true;
     ldap_pages := [page mails [paged ""]];
     scim_delete_ok := λ _, true;
     post_message_ok := λ _ _, true;
     handler_owners_response := Ok members |}.

(** The directory answers in two pages. *)
Definition two_pages : world :=
  {| guests_response := Ok members;
     owners_response := Ok members;
     scim_response := Ok (PDict [("Resources", PList staff)]);
     legacy_response := Ok (PDict [("members", PList staff)]);
     ldap_bind_ok := true;
     ldap_pages := [page ["A@x.com"; "b@x.com"] [paged "c1"];
                    page ["C@X.COM"] [paged ""]];
     scim_delete_ok := λ _, true;
     post_message_ok := λ _ _, true;
     handler_owners_response := Ok members |}.

(** The second answer of the directory carries no paging control. *)
Definition paging_lost : world :=
  {| guests_response := Ok members;
     owners_response := Ok members;
     scim_response := Ok (PDict [("Resources", PList staff)]);
     legacy_response := Ok (PDict [("members", PList staff)]);
     ldap_bind_ok := true;
     ldap_pages := [page ["A@x.com"; "b@x.com"] [paged "c1"];
                    page ["C@X.COM"] []];
     scim_delete_ok := λ _, true;
     post_message_ok := λ _ _, true;
     handler_owners_response := Ok members |}.

(** The platform rejects every DELETE. *)
Definition revoke_rejected : world :=
  {| guests_response := Ok members;
     owners_response := Ok members;
     scim_response := Ok (PDict [("Resources", PList staff)]);
     legacy_response := Ok (PDict [("members", PList staff)]);
     ldap_bind_ok := true;
     ldap_pages := [page ["a@x.com"] [paged ""]];
     scim_delete_ok := λ _, false;
     post_message_ok := λ _ _, true;
     handler_owners_response := Ok members |}.

(** The platform rejects every message. *)
Definition post_rejected : world :=
  {| guests_response := Ok members;
     owners_response := Ok members;
     scim_response := Ok (PDict [("Resources", PList staff)]);
     legacy_response := Ok (PDict [("members", PList staff)]);
     ldap_bind_ok := true;
     ldap_pages := [page ["a@x.com"] [paged ""]];
     scim_delete_ok := λ _, true;
     post_message_ok := λ _ _, false;
     handler_owners_response := Ok members |}.

(** The platform is unreachable. *)
Definition slack_down : world :=
  {| guests_response := Raise HTTPError;
     owners_response := Raise HTTPError;
     scim_response := Raise HTTPError;
     legacy_response := Raise HTTPError;
     ldap_bind_ok := true;
     ldap_pages := [page ["a@x.com"] [paged ""]];
     scim_delete_ok := λ _, false;
     post_message_ok := λ _ _, false;
     handler_owners_response := Raise HTTPError |}.

(** The directory is unreachable, the platform is not. *)
Definition ldap_down : world :=
  {| guests_response := Ok members;
     owners_response := Ok members;
     scim_response := Ok (PDict [("Resources", PList staff)]);
     legacy_response := Ok (PDict [("members", PList staff)]);
     ldap_bind_ok := false;
     ldap_pages := [];
     scim_delete_ok := λ _, true;
     post_message_ok := λ _ _, true;
     handler_owners_response := Ok members |}.

(** Ten accounts; the one that the directory does not know carries
    [active: false] (resp. [active: true]). *)
Definition staff_and_leaver (active : bool) : list pyval :=
  [account "U1" "a@x.com" true; account "U2" "a@x.com" true;
   account "U3" "a@x.com" true; account "U4" "a@x.com" true;
   account "U5" "a@x.com" true; account "U6" "a@x.com" true;
   account "U7" "a@x.com" true; account "U8" "a@x.com" true;
   account "U9" "a@x.com" true; account "U10" "gone@x.com" active].

(** A guest whose profile carries an empty email, in a workspace of
    ten accounts. *)
Definition visitors : pyval :=
  PDict [("members", PList [member "O1" "boss@x.com" false true;
                            member "G1" "" true false])].

Definition staff_and_visitor : list pyval :=
  [account "U1" "a@x.com" true; account "U2" "a@x.com" true;
   account "U3" "a@x.com" true; account "U4" "a@x.com" true;
   account "U5" "a@x.com" true; account "U6" "a@x.com" true;
   account "U7" "a@x.com" true; account "U8" "a@x.com" true;
   account "U9" "a@x.com" true; account "G1" "visitor@partner.com" true].

Definition guest_without_email : world :=
  {| guests_response := Ok visitors;
     owners_response := Ok visitors;
     scim_response := Ok (PDict [("Resources", PList staff_and_visitor)]);
     legacy_response := Ok (PDict [("members", PList staff_and_visitor)]);
     ldap_bind_ok := true;
     ldap_pages := [page ["a@x.com"] [paged ""]];
     scim_delete_ok := λ _, true;
     post_message_ok := λ _ _, true;
     handler_owners_response := Ok visitors |}.

(** What [users.list] serves: an owner, a member whose address the
    directory does not know, a guest. *)
Definition roster : list pyval :=
  [member "O1" "boss@x.com" false true;
   member "U2" "gone@x.com" false false;
   member "G1" "guest@partner.com" true false].

(** [USE_SCIM_API] is off and [api/users.list] answers like
    [users.list]. *)
Definition legacy_roster : world :=
  {| guests_response := Ok (PDict [("members", PList roster)]);
     owners_response := Ok (PDict [("members", PList roster)]);
     scim_response := Raise HTTPError;
     legacy_response := Ok (PDict [("members", PList roster)]);
     ldap_bind_ok := true;
     ldap_pages := [page ["boss@x.com"] [paged ""]];
     scim_delete_ok := λ _, false;
     post_message_ok := λ _ _, true;
     handler_owners_response := Ok (PDict [("members", PList roster)]) |}.

(** The address [émile@x.com] as text: its first code point is U+00E9;
    and the same address in capitals, [ÉMILE@X.COM], with U+00C9. *)
Definition emile : string := String (ascii_of_nat 233) "mile@x.com".

Definition EMILE : string := String (ascii_of_nat 201) "MILE@X.COM".

(** Ten accounts; the directory knows the addresses of all of them,
    one of which has a letter outside ASCII. *)
Definition staff_and_emile : list pyval :=
  [account "U1" "a@x.com" true; account "U2" "a@x.com" true;
   account "U3" "a@x.com" true; account "U4" "a@x.com" true;
   account "U5" "a@x.com" true; account "U6" "a@x.com" true;
   account "U7" "a@x.com" true; account "U8" "a@x.com" true;
   account "U9" "a@x.com" true; account "U10" EMILE true].

Definition accented : world := workspace staff_and_emile ["a@x.com"; utf8 emile].

(** The account listing holds a record shaped like a [users.list]
    member: it has no [emails] and no [active] field. *)
Definition mixed_records : world :=
  workspace [account "U1" "a@x.com" true; member "U2" "b@x.com" false false]
            ["a@x.com"].

Definition scim_cfg : config :=
  {| max_delete_failsafe := 0x1.999999999999ap-3%float; use_scim_api := true |}.

Definition legacy_cfg : config :=
  {| max_delete_failsafe := 0x1.999999999999ap-3%float; use_scim_api := false |}.

End Examples.

(* ===================================================================== *)
(** ** Generic facts about the effect monad *)
(* ===================================================================== *)

Lemma bindM_Ok {A B} (t : list event) (a : A) (k : A → M B) :
  bindM (t, Ok a) k = ((t ++ (k a).1)%list, (k a).2).
Proof. simpl. by destruct (k a). Qed.

Lemma bindM_Raise {A B} (t : list event) (e : exn) (k : A → M B) :
  bindM (t, Raise e) k = (t, Raise e).
Proof. done. Qed.

Lemma bindM_split {A B} (m : M A) (k : A → M B) :
  bindM m k =
  match m.2 with
  | Ok a => ((m.1 ++ (k a).1)%list, (k a).2)
  | Raise e => (m.1, Raise e)
  end.
Proof. destruct m as [t [a|e]]; simpl; [by destruct (k a)|done]. Qed.

Lemma bindM_trace {A B} (P : event → Prop) (m : M A) (k : A → M B) :
  Forall P m.1 → (∀ a, Forall P (k a).1) → Forall P (bindM m k).1.
Proof.
  intros Hm Hk. rewrite bindM_split. destruct (m.2); simpl; [|done].
  apply Forall_app; auto.
Qed.

Lemma lift_trace {A} (P : event → Prop) (r : result A) : Forall P (lift r).1.
Proof. constructor. Qed.

(** Discharges [Forall P (trace of a straight-line program)], given
    [P] on each event that the program tells. *)
Ltac trace_tac :=
  repeat first
    [ apply bindM_trace; [|intros]
    | apply lift_trace
    | match goal with
      | |- Forall _ (if ?b then _ else _).1 => destruct b
      | |- Forall _ (tell _).1 => unfold tell; cbn [fst]; constructor; [|constructor]
      | |- Forall _ (ret _).1 => constructor
      | |- Forall _ (raise _).1 => constructor
      end ].

Lemma reads_quiet t : reads t → quiet t.
Proof. intros H. eapply Forall_impl; [exact H|]. by intros []. Qed.

Lemma http_get_json_reads ep response field : reads (http_get_json ep response field).1.
Proof. unfold reads, http_get_json. trace_tac; done. Qed.

Lemma get_owner_users_reads response : reads (get_owner_users response).1.
Proof.
  unfold reads, get_owner_users.
  apply bindM_trace; [apply http_get_json_reads|intros ?]. apply lift_trace.
Qed.

Lemma paged_loop_reads pages acc : reads (paged_loop pages acc).1.
Proof.
  unfold reads. revert acc. induction pages as [|r pages IH]; intros acc.
  - trace_tac; done.
  - cbn [paged_loop]. apply bindM_trace; [trace_tac; done|intros _].
    apply bindM_trace; [apply lift_trace|intros acc'].
    destruct (pctrls r) as [|c ?]; [trace_tac; done|].
    destruct (String.eqb (cookie c) ""); [trace_tac; done|].
    apply bindM_trace; [trace_tac; done|intros _]. apply IH.
Qed.

Lemma get_all_active_ad_users_reads w : reads (get_all_active_ad_users w).1.
Proof.
  unfold reads, get_all_active_ad_users.
  apply bindM_trace; [trace_tac; done|intros _].
  apply bindM_trace; [trace_tac; done|intros _].
  apply bindM_trace; [trace_tac; done|intros _].
  apply bindM_trace; [apply paged_loop_reads|intros ?].
  trace_tac; done.
Qed.

Lemma fetch_reads cfg w : reads (fetch cfg w).1.
Proof.
  unfold reads, fetch.
  apply bindM_trace; [|intros ?].
  { unfold get_guest_users. apply bindM_trace; [apply http_get_json_reads|intros ?].
    apply lift_trace. }
  apply bindM_trace; [apply get_owner_users_reads|intros ?].
  apply bindM_trace; [|intros ?].
  { unfold listing, get_all_slack_users_scim, get_all_slack_users.
    destruct (use_scim_api cfg); apply http_get_json_reads. }
  apply bindM_trace; [apply get_all_active_ad_users_reads|intros ?].
  trace_tac.
Qed.

Lemma fetch_quiet cfg w : quiet (fetch cfg w).1.
Proof. apply reads_quiet, fetch_reads. Qed.

Lemma bindM_raises {A B} (P : exn → Prop) (m : M A) (k : A → M B) :
  raises_only P m → (∀ a, raises_only P (k a)) → raises_only P (bindM m k).
Proof.
  intros Hm Hk e. rewrite bindM_split.
  destruct (m.2) eqn:E; simpl; [apply Hk|]. intros [= ->]. by apply Hm.
Qed.

Ltac raises_tac :=
  repeat first
    [ apply bindM_raises; [|intros]
    | match goal with
      | |- raises_only _ (if ?b then _ else _) => destruct b
      | |- raises_only _ (tell _) => by intros ?
      | |- raises_only _ (ret _) => by intros ?
      | |- raises_only _ (raise _) => by intros ? [= <-]
      end ].

Lemma message_loop_raises w message keys :
  raises_only (λ e, e = HTTPError) (message_loop w message keys).
Proof.
  induction keys as [|owner keys IH]; cbn [message_loop]; raises_tac. exact IH.
Qed.

Lemma slack_message_owners_raises w message owners :
  raises_only (λ e, e = HTTPError) (slack_message_owners w message owners).
Proof. unfold slack_message_owners. raises_tac. apply message_loop_raises. Qed.

Lemma act_on_raises cfg w owners item :
  raises_only (λ e, e = HTTPError) (act_on cfg w owners item).
Proof.
  destruct item as [slack_email value].
  unfold act_on, disable_slack_user, notify_admin_invalid_user.
  raises_tac; apply message_loop_raises.
Qed.

Lemma act_loop_raises cfg w owners items :
  raises_only (λ e, e = HTTPError) (act_loop cfg w owners items).
Proof.
  induction items as [|item items IH]; cbn [act_loop]; raises_tac;
    [apply act_on_raises|exact IH].
Qed.

(* ===================================================================== *)
(** ** The failsafe (lines 173-177) *)
(* ===================================================================== *)

Lemma failsafe_nonempty cfg C all_slack_users n :
  py_len all_slack_users = Ok n → 0 < n →
  failsafe cfg C all_slack_users =
  if over_failsafe cfg (size C) n then Raise FailsafeExceeded else Ok tt.
Proof.
  intros Hlen Hn. unfold failsafe, over_failsafe. rewrite Hlen. simpl.
  destruct n; [lia|]. done.
Qed.

Lemma candidates_after_fetch cfg w t g o s ad :
  fetch cfg w = (t, Ok (g, o, s, ad)) →
  candidates cfg w =
  match reconcile cfg g s ad with
  | Ok C => (EvLogInfo LookingText :: t, Ok (o, C))
  | Raise e => (EvLogInfo LookingText :: t, Raise e)
  end.
Proof.
  intros Hfetch. unfold candidates. rewrite Hfetch.
  cbn [tell bindM lift ret]. destruct (reconcile cfg g s ad); simpl;
    by rewrite ?app_nil_r.
Qed.

Lemma sync_after_fetch cfg w t g o s ad :
  fetch cfg w = (t, Ok (g, o, s, ad)) →
  sync_slack_ldap cfg w =
  match reconcile cfg g s ad with
  | Ok C => bindM (EvLogInfo LookingText :: t, Ok tt)
                  (λ _, act_loop cfg w o (map_to_list C))
  | Raise e => (EvLogInfo LookingText :: t, Raise e)
  end.
Proof.
  intros Hfetch. unfold sync_slack_ldap.
  rewrite (candidates_after_fetch _ _ _ _ _ _ _ Hfetch).
  by destruct (reconcile cfg g s ad).
Qed.

(** C1: when the four reads succeed and the platform snapshot is not
    empty, the cycle raises the failsafe exception if and only if the
    float quotient |candidates| / |snapshot| is greater than
    [max_delete_failsafe]; and when it does, the trace of the cycle
    holds no DELETE and no message to an owner: the guard is decided on
    the complete candidate set before the acting loop starts. *)
Theorem C1_failsafe_guard cfg w t g o s ad C n :
  fetch cfg w = (t, Ok (g, o, s, ad)) →
  collect g ad s = Ok C →
  py_len s = Ok n →
  0 < n →
  ((sync_slack_ldap cfg w).2 = Raise FailsafeExceeded
     ↔ over_failsafe cfg (size C) n = true)
  ∧ (over_failsafe cfg (size C) n = true → quiet (sync_slack_ldap cfg w).1).
Proof.
  intros Hfetch Hcollect Hlen Hn.
  rewrite (sync_after_fetch _ _ _ _ _ _ _ Hfetch).
  unfold reconcile. rewrite Hcollect. cbn [bindR].
  rewrite (failsafe_nonempty _ _ _ _ Hlen Hn).
  destruct (over_failsafe cfg (size C) n) eqn:Hover; cbn [bindR].
  - split; [done|]. intros _. constructor; [done|].
    pose proof (fetch_quiet cfg w) as Hq. by rewrite Hfetch in Hq.
  - split; [|done]. split; [|done]. intros Hraise. exfalso.
    rewrite bindM_split in Hraise. cbn in Hraise.
    by apply act_loop_raises in Hraise.
Qed.

Lemma C1_failsafe_guard_witness :
  (sync_slack_ldap Examples.scim_cfg Examples.healthy).2 ≠ Raise FailsafeExceeded
  ∧ (sync_slack_ldap Examples.scim_cfg (Examples.workspace Examples.staff [])).2
    = Raise FailsafeExceeded
  ∧ quiet (sync_slack_ldap Examples.scim_cfg (Examples.workspace Examples.staff [])).1.
Proof.
  pose (inputs := λ w, match (fetch Examples.scim_cfg w).2 with
                       | Ok i => i
                       | Raise _ => (∅, ∅, PNone, ∅)
                       end).
  pose (found := λ w, match collect (inputs w).1.1.1 (inputs w).2 (inputs w).1.2 with
                      | Ok C => C
                      | Raise _ => ∅
                      end).
  pose (instance := λ w, C1_failsafe_guard Examples.scim_cfg w
                           (fetch Examples.scim_cfg w).1 (inputs w).1.1.1
                           (inputs w).1.1.2 (inputs w).1.2 (inputs w).2 (found w) 10).
  destruct (instance Examples.healthy) as [[Hiff _] _];
    [vm_compute; reflexivity|vm_compute; reflexivity|reflexivity|lia|].
  destruct (instance (Examples.workspace Examples.staff [])) as [[_ Hiff'] Hquiet];
    [vm_compute; reflexivity|vm_compute; reflexivity|reflexivity|lia|].
  split_and!.
  - intros H. apply Hiff in H. vm_compute in H. discriminate.
  - apply Hiff'. vm_compute. reflexivity.
  - apply Hquiet. vm_compute. reflexivity.
Defined.

(* ===================================================================== *)
(** ** The empty snapshot (line 173) *)
(* ===================================================================== *)

Lemma fetch_listing cfg w t g o s ad :
  fetch cfg w = (t, Ok (g, o, s, ad)) → (listing cfg w).2 = Ok s.
Proof.
  unfold fetch. rewrite !bindM_split.
  destruct (get_guest_users _).2; [|done].
  rewrite !bindM_split. destruct (get_owner_users _).2; [|done].
  rewrite !bindM_split. destruct (listing cfg w).2; [|done].
  rewrite !bindM_split. destruct (get_all_active_ad_users w).2; [|done].
  simpl. congruence.
Qed.

Lemma py_len_0_iter s : py_len s = Ok 0 → py_iter s = Ok [].
Proof.
  destruct s as [| | |str|l|d]; simpl; try done.
  - destruct str; [done|]. simpl. intros [=].
  - destruct l; [done|]. simpl. intros [=].
  - destruct d; [done|]. simpl. intros [=].
Qed.

Lemma reconcile_empty cfg g s ad :
  py_len s = Ok 0 → reconcile cfg g s ad = Raise ZeroDivisionError.
Proof.
  intros Hlen. unfold reconcile, collect, failsafe.
  rewrite (py_len_0_iter _ Hlen), Hlen. done.
Qed.

(** C2: when the account listing of the configured mode delivers an
    empty snapshot, the cycle never returns normally: it raises, its
    trace holds no DELETE and no message to an owner, and when the
    other reads succeed the exception is the ZeroDivisionError of the
    ratio. *)
Theorem C2_empty_snapshot cfg w s :
  (listing cfg w).2 = Ok s →
  py_len s = Ok 0 →
  (∃ e, (sync_slack_ldap cfg w).2 = Raise e)
  ∧ quiet (sync_slack_ldap cfg w).1
  ∧ (is_ok (fetch cfg w).2 = true →
     (sync_slack_ldap cfg w).2 = Raise ZeroDivisionError).
Proof.
  intros Hlisting Hlen.
  pose proof (fetch_quiet cfg w) as Hq.
  destruct (fetch cfg w) as [t [[[[g o] s'] ad]|e]] eqn:Hfetch.
  - pose proof (fetch_listing _ _ _ _ _ _ _ Hfetch) as Hs.
    rewrite Hlisting in Hs. injection Hs as <-.
    rewrite (sync_after_fetch _ _ _ _ _ _ _ Hfetch), reconcile_empty by done.
    split_and!; [by eexists| by constructor | done].
  - unfold sync_slack_ldap, candidates. rewrite Hfetch. simpl.
    split_and!; [by eexists| by constructor | done].
Qed.

Lemma C2_empty_snapshot_witness :
  ∃ e, (sync_slack_ldap Examples.scim_cfg
          {| guests_response := Ok Examples.members;
             owners_response := Ok Examples.members;
             scim_response := Ok (PDict [("Resources", PList [])]);
             legacy_response := Raise HTTPError;
             ldap_bind_ok := true;
             ldap_pages := [Examples.page ["a@x.com"] [Examples.paged ""]];
             scim_delete_ok := λ _, true;
             post_message_ok := λ _ _, true;
             handler_owners_response := Ok Examples.members |}).2 = Raise e.
Proof.
  eapply proj1. eapply (C2_empty_snapshot _ _ (PList [])); reflexivity.
Defined.

(* ===================================================================== *)
(** ** Directory pagination (lines 71-92) *)
(* ===================================================================== *)

Lemma omap_head {A B} (f : A → option B) (x : A) (l : list A) :
  omap f (x :: l) = option_list (f x) ++ omap f l.
Proof. simpl. by destruct (f x). Qed.

Lemma ingest_entry_spec S entry :
  entry_ok entry = true →
  ingest_entry (gset_to_gmap true S) entry =
  Ok (gset_to_gmap true (S ∪ list_to_set (option_list (identity entry)))).
Proof.
  unfold entry_ok, ingest_entry, identity.
  destruct (attrs entry !! "mail") as [[|email ?]|]; intros ?; try done.
  - destruct (String.eqb email ""); simpl.
    + do 2 f_equal. set_solver.
    + rewrite <- gset_to_gmap_union_singleton. do 2 f_equal. set_solver.
  - simpl. do 2 f_equal. set_solver.
Qed.

Lemma ingest_entries_spec entries : ∀ S,
  forallb entry_ok entries = true →
  for_each ingest_entry (gset_to_gmap true S) entries =
  Ok (gset_to_gmap true (S ∪ list_to_set (omap identity entries))).
Proof.
  induction entries as [|entry entries IH]; intros S Hok.
  - simpl. do 2 f_equal. set_solver.
  - simpl in Hok. apply andb_prop in Hok as [Hentry Hrest].
    cbn [for_each]. rewrite ingest_entry_spec by done. cbn [bindR].
    rewrite IH by done. do 2 f_equal.
    rewrite omap_head, list_to_set_app_L. set_solver.
Qed.

Lemma ingest_entries_total entries acc :
  forallb entry_ok entries = false →
  ∃ e, for_each ingest_entry acc entries = Raise e.
Proof.
  revert acc. induction entries as [|entry entries IH]; intros acc; [done|].
  cbn [for_each forallb]. destruct (ingest_entry acc entry) as [acc'|e] eqn:Hstep.
  - cbn [bindR]. intros Hok. apply IH.
    destruct (entry_ok entry) eqn:Hentry; [done|].
    unfold entry_ok in Hentry. unfold ingest_entry in Hstep.
    by destruct (attrs entry !! "mail") as [[|? ?]|].
  - intros _. by exists e.
Qed.

Lemma paged_loop_stop stop rest acc :
  stops stop = true →
  (paged_loop (stop :: rest) acc).2 =
  let? all_ad_users := for_each ingest_entry acc (rdata stop) in
  match paging_cookie stop with
  | Some _ => Ok all_ad_users
  | None => Raise PagingUnsupported
  end.
Proof.
  unfold stops, continues, paging_cookie. intros Hstop.
  cbn [paged_loop]. rewrite !bindM_split. cbn [tell lift fst snd].
  destruct (for_each ingest_entry acc (rdata stop)) as [acc'|e]; [|done].
  cbn [bindR]. destruct (pctrls stop) as [|c ?]; [done|].
  simpl in Hstop. apply negb_true_iff, negb_false_iff in Hstop.
  simpl. by rewrite Hstop.
Qed.

Lemma paged_loop_continue r pages acc :
  continues r = true →
  (paged_loop (r :: pages) acc).2 =
  let? all_ad_users := for_each ingest_entry acc (rdata r) in
  (paged_loop pages all_ad_users).2.
Proof.
  unfold continues, paging_cookie. intros Hcont.
  cbn [paged_loop]. rewrite !bindM_split. cbn [tell lift fst snd].
  destruct (for_each ingest_entry acc (rdata r)) as [acc'|e]; [|done].
  cbn [bindR]. destruct (pctrls r) as [|c ?]; [done|].
  simpl in Hcont. apply negb_true_iff in Hcont. rewrite Hcont.
  by rewrite bindM_split.
Qed.

Lemma paged_loop_spec init stop rest : ∀ S,
  forallb continues init = true →
  stops stop = true →
  forallb page_ok (init ++ [stop]) = true →
  (paged_loop (init ++ stop :: rest) (gset_to_gmap true S)).2 =
  match paging_cookie stop with
  | Some _ =>
      Ok (gset_to_gmap true (S ∪ list_to_set (concat (identities <$> init ++ [stop]))))
  | None => Raise PagingUnsupported
  end.
Proof.
  induction init as [|r init IH]; intros S Hinit Hstop Hok.
  - simpl in Hok. apply andb_prop in Hok as [Hok _].
    rewrite !app_nil_l, paged_loop_stop by done.
    rewrite ingest_entries_spec by done. cbn [bindR].
    destruct (paging_cookie stop); [|done].
    rewrite list_fmap_singleton. cbn [concat]. by rewrite app_nil_r.
  - simpl in Hinit, Hok.
    apply andb_prop in Hinit as [Hr Hinit]. apply andb_prop in Hok as [Hrok Hok].
    rewrite <- app_comm_cons, paged_loop_continue by done.
    rewrite ingest_entries_spec by done. cbn [bindR].
    rewrite (IH _ Hinit Hstop Hok). destruct (paging_cookie stop); [|done].
    do 2 f_equal. rewrite <- app_comm_cons, fmap_cons. cbn [concat].
    rewrite list_to_set_app_L. unfold identities at 2. set_solver.
Qed.

Lemma paged_loop_unsupported init stop rest : ∀ acc,
  forallb continues init = true →
  paging_cookie stop = None →
  ∃ e, (paged_loop (init ++ stop :: rest) acc).2 = Raise e.
Proof.
  induction init as [|r init IH]; intros acc Hinit Hnone.
  - rewrite app_nil_l, paged_loop_stop by (unfold stops, continues; by rewrite Hnone).
    rewrite Hnone. destruct (for_each _ _ _); by eexists.
  - simpl in Hinit. apply andb_prop in Hinit as [Hr Hinit].
    rewrite <- app_comm_cons, paged_loop_continue by done.
    destruct (for_each _ _ _) as [acc'|e]; [|by eexists].
    cbn [bindR]. by apply IH.
Qed.

Lemma get_all_active_ad_users_result w :
  ldap_bind_ok w = true →
  (get_all_active_ad_users w).2 = (paged_loop (ldap_pages w) ∅).2.
Proof.
  intros Hbind. unfold get_all_active_ad_users. rewrite Hbind.
  repeat (rewrite !bindM_split; cbn [tell ret fst snd]).
  by destruct (paged_loop _ _).2.
Qed.

(** C3: let the server answer with the pages [init], each carrying the
    paging control with a non-empty cookie, and then with the page
    [stop].  If [stop] carries the control with an empty cookie, the
    enumeration returns the dictionary whose keys are exactly the
    lower-cased mails of all the pages read; if [stop] carries no
    paging control, the enumeration raises (the exception of line 91 on
    well-formed entries) and returns nothing of what it had
    accumulated. *)
Theorem C3_pagination w init stop rest :
  ldap_bind_ok w = true →
  ldap_pages w = init ++ stop :: rest →
  forallb continues init = true →
  stops stop = true →
  (paging_cookie stop = None → ∃ e, (get_all_active_ad_users w).2 = Raise e)
  ∧ (forallb page_ok (init ++ [stop]) = true →
     (get_all_active_ad_users w).2 =
     match paging_cookie stop with
     | Some _ => Ok (directory (concat (identities <$> init ++ [stop])))
     | None => Raise PagingUnsupported
     end).
Proof.
  intros Hbind Hpages Hinit Hstop.
  rewrite get_all_active_ad_users_result, Hpages by done. split.
  - intros Hnone. by apply paged_loop_unsupported.
  - intros Hok. rewrite <- gset_to_gmap_empty with (x := true).
    rewrite paged_loop_spec by done.
    destruct (paging_cookie stop); [|done].
    unfold directory. do 2 f_equal. set_solver.
Qed.

Lemma C3_pagination_witness :
  (get_all_active_ad_users Examples.two_pages).2
    = Ok (directory ["a@x.com"; "b@x.com"; "c@x.com"])
  ∧ (get_all_active_ad_users Examples.paging_lost).2 = Raise PagingUnsupported.
Proof.
  split.
  - apply (proj2 (C3_pagination Examples.two_pages
             [Examples.page ["A@x.com"; "b@x.com"] [Examples.paged "c1"]]
             (Examples.page ["C@X.COM"] [Examples.paged ""]) []
             eq_refl eq_refl eq_refl eq_refl)).
    reflexivity.
  - apply (proj2 (C3_pagination Examples.paging_lost
             [Examples.page ["A@x.com"; "b@x.com"] [Examples.paged "c1"]]
             (Examples.page ["C@X.COM"] []) []
             eq_refl eq_refl eq_refl eq_refl)).
    reflexivity.
Defined.

(* ===================================================================== *)
(** ** Case normalization (lines 77, 162, 170) *)
(* ===================================================================== *)

Lemma lower_ascii_idemp c : lower_ascii (lower_ascii c) = lower_ascii c.
Proof. by destruct c as [[] [] [] [] [] [] [] []]. Qed.

Lemma lower_idemp s : lower (lower s) = lower s.
Proof.
  induction s as [|c s IH]; [done|]. simpl. by rewrite lower_ascii_idemp, IH.
Qed.

Lemma ingest_entry_normalized acc entry acc' :
  normalized acc → ingest_entry acc entry = Ok acc' → normalized acc'.
Proof.
  unfold ingest_entry. intros Hacc.
  destruct (attrs entry !! "mail") as [[|email ?]|]; [done| |by intros [= <-]].
  destruct (String.eqb email ""); intros [= <-]; [done|].
  intros k v. rewrite lookup_insert. case_decide as Hk.
  - intros [= <-]. subst k. by rewrite lower_idemp.
  - apply Hacc.
Qed.

Lemma for_each_invariant {A S} (P : S → Prop) (step : S → A → result S) l :
  (∀ acc x acc', P acc → step acc x = Ok acc' → P acc') →
  ∀ acc acc', P acc → for_each step acc l = Ok acc' → P acc'.
Proof.
  intros Hstep. induction l as [|x l IH]; intros acc acc' Hacc; simpl.
  - by intros [= <-].
  - destruct (step acc x) as [acc1|] eqn:Hx; [|done]. cbn [bindR]. eauto.
Qed.

Lemma paged_loop_normalized pages : ∀ acc ad,
  normalized acc → (paged_loop pages acc).2 = Ok ad → normalized ad.
Proof.
  induction pages as [|r pages IH]; intros acc ad Hacc; [done|].
  cbn [paged_loop]. rewrite !bindM_split. cbn [tell lift fst snd].
  destruct (for_each ingest_entry acc (rdata r)) as [acc'|] eqn:Hpage; [|done].
  assert (normalized acc') as Hacc'.
  { eapply for_each_invariant; [apply ingest_entry_normalized|exact Hacc|exact Hpage]. }
  cbn [bindR]. destruct (pctrls r) as [|c ?]; [done|].
  destruct (String.eqb (cookie c) "").
  - by intros [= <-].
  - rewrite bindM_split. cbn [tell fst snd]. by apply IH.
Qed.

Lemma get_all_active_ad_users_normalized w ad :
  (get_all_active_ad_users w).2 = Ok ad → normalized ad.
Proof.
  unfold get_all_active_ad_users.
  repeat (rewrite !bindM_split; cbn [tell ret raise fst snd]).
  destruct (ldap_bind_ok w); cbn [ret raise fst snd]; [|done].
  repeat (rewrite !bindM_split; cbn [tell ret raise fst snd]).
  destruct (paged_loop (ldap_pages w) ∅).2 as [ad'|] eqn:Hloop; [|done].
  intros [= <-]. eapply paged_loop_normalized; [|exact Hloop]. by intros k v.
Qed.

(** Splits a hypothesis [let? x := r in k = Ok _] on the result [r]. *)
Ltac bindR_inv H :=
  repeat match type of H with
         | bindR ?r _ = Ok _ =>
             let x := fresh "x" in
             let E := fresh "E" in
             destruct r as [x|] eqn:E; [cbn [bindR] in H|discriminate H]
         end.

Lemma lower_unicode_idemp c : lower_unicode (lower_unicode c) = lower_unicode c.
Proof. by destruct c as [[] [] [] [] [] [] [] []]. Qed.

Lemma ulower_idemp s : ulower (ulower s) = ulower s.
Proof.
  induction s as [|c s IH]; [done|]. simpl. by rewrite lower_unicode_idemp, IH.
Qed.

Lemma lower_unicode_fixed c : lower_unicode c = c → lower_ascii c = c.
Proof. destruct c as [[] [] [] [] [] [] [] []]; vm_compute; congruence. Qed.

Lemma ulower_fixed s : ulower s = s → lower s = s.
Proof.
  induction s as [|c s IH]; [done|]. simpl. intros [= Hc Hs].
  by rewrite (lower_unicode_fixed _ Hc), (IH Hs).
Qed.

Lemma lower_unicode_ascii c :
  (nat_of_ascii c <? 128)%nat = true →
  lower_unicode c = lower_ascii c
  ∧ (nat_of_ascii (lower_ascii c) <? 128)%nat = true.
Proof. destruct c as [[] [] [] [] [] [] [] []]; vm_compute; by intros. Qed.

(** On ASCII text the two lower-casings agree, and the result is
    ASCII. *)
Lemma ulower_ascii s :
  is_ascii s = true → ulower s = lower s ∧ is_ascii (lower s) = true.
Proof.
  induction s as [|c s IH]; [done|]. cbn [is_ascii ulower lower].
  intros [Hc Hs]%andb_prop. destruct (lower_unicode_ascii _ Hc) as [-> ->].
  destruct (IH Hs) as [-> ->]. done.
Qed.

(** A step of the collecting loop never adds a key that the lookup of
    line 170 finds in the directory. *)
Lemma collect_step_known g ad acc u acc' k :
  collect_step g ad acc u = Ok acc' →
  default false (get_by_text ad k) = true →
  acc' !! k = acc !! k.
Proof.
  unfold collect_step. intros H Hk. bindR_inv H.
  destruct (negb (truthy _)); [by injection H as <-|]. bindR_inv H.
  destruct (_ || _); [by injection H as <-|].
  destruct (negb (default false (get_by_text ad _))) eqn:Habsent;
    injection H as <-; [|done].
  apply lookup_insert_ne. intros ->. by rewrite Hk in Habsent.
Qed.

Lemma collect_known g ad s C k :
  collect g ad s = Ok C → default false (get_by_text ad k) = true → C !! k = None.
Proof.
  unfold collect. intros H Hk. bindR_inv H.
  eapply (for_each_invariant (λ acc, acc !! k = None)); [| |exact H].
  - intros acc u acc' Hacc Hstep. by rewrite (collect_step_known _ _ _ _ _ _ Hstep Hk).
  - apply lookup_empty.
Qed.

(** What holds of line 170: an account whose address is ASCII and
    agrees, after lower-casing both sides, with an identity that the
    enumeration returned is passed over by the collecting loop, and no
    candidate is stored under its lower-cased address. *)
Lemma matching_ascii_account_is_passed_over w g ad d u raw :
  (get_all_active_ad_users w).2 = Ok ad →
  is_Some (ad !! d) →
  email_value u = Ok (PStr raw) →
  is_ascii raw = true →
  ulower raw = lower d →
  (∀ acc acc', collect_step g ad acc u = Ok acc' → acc' = acc)
  ∧ (∀ s C, collect g ad s = Ok C → C !! ulower raw = None).
Proof.
  intros Had [v Hd] Hvalue Hascii Hagree.
  destruct (get_all_active_ad_users_normalized _ _ Had _ _ Hd) as [-> Hlow].
  destruct (ulower_ascii _ Hascii) as [Hsame Hlower].
  assert (default false (get_by_text ad (ulower raw)) = true) as Hknown.
  { unfold get_by_text. rewrite Hsame, Hlower, <- Hsame, Hagree, Hlow, Hd. done. }
  split; [|intros s C HC; by eapply collect_known].
  intros acc acc'. unfold collect_step, email_value in *.
  destruct (getitem_key u "emails") as [emails|]; [cbn [bindR] in *|done].
  destruct (getitem_0 emails) as [first|]; [cbn [bindR] in *|done].
  rewrite Hvalue. cbn [bindR py_lower].
  destruct (getitem_key u "active") as [active|]; [cbn [bindR]|done].
  destruct (negb (truthy active)); [by intros [= <-]|].
  destruct (getitem_key u "id") as [id|]; [cbn [bindR]|done].
  destruct (hash_key id) as [key|]; [cbn [bindR]|done].
  destruct (_ || _); [by intros [= <-]|].
  rewrite Hknown. cbn [negb]. by intros [= <-].
Qed.

(** C7, at an input where the code departs from it: the directory holds
    [émile@x.com], the address of an account that the platform spells
    [ÉMILE@X.COM].  Line 162 lower-cases the account's address to the
    directory's, letter for letter; but the directory value is a byte
    string (the UTF-8 encoding of the address) and the account's a
    unicode object: the lookup of line 170 finds no equal key, the
    account becomes the one candidate of ten and is deleted. *)
Theorem C7_accented_address_is_candidate :
  (get_all_active_ad_users Examples.accented).2
    = Ok (directory ["a@x.com"; utf8 Examples.emile])
  ∧ email_of (Examples.account "U10" Examples.EMILE true) = Ok Examples.emile
  ∧ collect ∅ (directory ["a@x.com"; utf8 Examples.emile])
            (PList Examples.staff_and_emile)
    = Ok {[Examples.emile := deletion_of (PStr "U10")]}
  ∧ EvScimDelete (PStr "U10")
      ∈ (sync_slack_ldap Examples.scim_cfg Examples.accented).1.
Proof.
  split_and!.
  - vm_compute. reflexivity.
  - vm_compute. reflexivity.
  - vm_compute. reflexivity.
  - vm_compute. apply list_elem_of_In. simpl. tauto.
Qed.

(* ===================================================================== *)
(** ** The candidate dictionary is keyed by email (lines 158-173) *)
(* ===================================================================== *)

(** A step adds to the accumulator what it adds to the empty
    dictionary: nothing, or one binding that replaces an older one. *)
Lemma collect_step_union g ad acc u :
  collect_step g ad acc u = let? m := collect_step g ad ∅ u in Ok (m ∪ acc).
Proof.
  unfold collect_step.
  destruct (getitem_key u "emails") as [emails|]; [cbn [bindR]|done].
  destruct (getitem_0 emails) as [first|]; [cbn [bindR]|done].
  destruct (getitem_key first "value") as [value|]; [cbn [bindR]|done].
  destruct (py_lower value) as [email|]; [cbn [bindR]|done].
  destruct (getitem_key u "active") as [active|]; [cbn [bindR]|done].
  destruct (negb (truthy active)); cbn [bindR]; [by rewrite (left_id_L ∅ (∪))|].
  destruct (getitem_key u "id") as [id|]; [cbn [bindR]|done].
  destruct (hash_key id) as [k|]; [cbn [bindR]|done].
  destruct (_ || _); cbn [bindR]; [by rewrite (left_id_L ∅ (∪))|].
  destruct (negb _); cbn [bindR]; [|by rewrite (left_id_L ∅ (∪))].
  by rewrite insert_empty, insert_union_singleton_l.
Qed.

Lemma for_each_app {A S} (step : S → A → result S) l1 l2 acc :
  for_each step acc (l1 ++ l2) =
  let? acc' := for_each step acc l1 in for_each step acc' l2.
Proof.
  revert acc. induction l1 as [|x l1 IH]; intros acc; [done|].
  simpl. destruct (step acc x); [apply IH|done].
Qed.

Lemma collect_loop_dom g ad users : ∀ acc C,
  for_each (collect_step g ad) acc users = Ok C →
  dom C = dom acc ∪ list_to_set (absent_emails g ad users).
Proof.
  induction users as [|u users IH]; intros acc C.
  - intros [= <-]. unfold absent_emails. simpl. set_solver.
  - cbn [for_each]. rewrite collect_step_union.
    destruct (collect_step g ad ∅ u) as [m|] eqn:Hu; [cbn [bindR]|done].
    intros H. rewrite (IH _ _ H), dom_union_L.
    unfold absent_emails. rewrite bind_cons, Hu, list_to_set_app_L.
    rewrite list_to_set_elements_L. set_solver.
Qed.

Lemma collect_loop_untouched g ad users k : ∀ acc C,
  Forall (λ u, ∀ m, collect_step g ad ∅ u = Ok m → m !! k = None) users →
  for_each (collect_step g ad) acc users = Ok C →
  C !! k = acc !! k.
Proof.
  induction users as [|u users IH]; intros acc C Hnone.
  - by intros [= <-].
  - apply Forall_cons in Hnone as [Hu Hnone].
    cbn [for_each]. rewrite collect_step_union.
    destruct (collect_step g ad ∅ u) as [m|]; [cbn [bindR]|done].
    intros H. rewrite (IH _ _ Hnone H). apply lookup_union_r. by apply Hu.
Qed.

(** C10: when two accounts of the snapshot contribute the same
    (lower-cased) email, the candidate dictionary holds one binding for
    that email, the one of the later account; the iteration of the
    acting loop meets the email once.  The numerator of the ratio is
    the number of distinct contributed emails, its denominator is the
    number of records of the snapshot. *)
Theorem C10_one_candidate_per_email cfg g ad users C k d1 d2 u1 u2 before between after :
  users = before ++ u1 :: between ++ u2 :: after →
  collect_step g ad ∅ u1 = Ok {[k := d1]} →
  collect_step g ad ∅ u2 = Ok {[k := d2]} →
  Forall (λ u, ∀ m, collect_step g ad ∅ u = Ok m → m !! k = None) after →
  collect g ad (PList users) = Ok C →
  C !! k = Some d2
  ∧ NoDup (map_to_list C).*1
  ∧ (∀ d, (k, d) ∈ map_to_list C ↔ d = d2)
  ∧ size C = size (list_to_set (absent_emails g ad users) : gset string)
  ∧ failsafe cfg C (PList users) =
    if over_failsafe cfg (size (list_to_set (absent_emails g ad users) : gset string))
                     (length users)
    then Raise FailsafeExceeded else Ok tt.
Proof.
  intros Husers Hu1 Hu2 Hafter Hcollect. unfold collect in Hcollect.
  cbn [py_iter bindR] in Hcollect.
  assert (C !! k = Some d2) as Hk.
  { assert (users = (before ++ u1 :: between) ++ u2 :: after) as Hsplit
      by (by rewrite Husers, <- app_assoc).
    rewrite Hsplit, for_each_app in Hcollect.
    destruct (for_each _ ∅ _) as [acc|]; [cbn [bindR] in Hcollect|done].
    cbn [for_each] in Hcollect. rewrite collect_step_union, Hu2 in Hcollect.
    cbn [bindR] in Hcollect.
    rewrite (collect_loop_untouched _ _ _ _ _ _ Hafter Hcollect).
    apply lookup_union_Some_l, lookup_singleton_eq. }
  assert (size C = size (list_to_set (absent_emails g ad users) : gset string)) as Hsize.
  { rewrite <- size_dom, (collect_loop_dom _ _ _ _ _ Hcollect), dom_empty_L.
    by rewrite (left_id_L ∅ (∪)). }
  split_and!; [done|apply NoDup_fst_map_to_list| |done|].
  - intros d. rewrite elem_of_map_to_list, Hk. naive_solver.
  - rewrite <- Hsize. apply failsafe_nonempty; [done|].
    rewrite Husers, length_app. simpl. lia.
Qed.

Lemma C10_one_candidate_per_email_witness :
  let snapshot := [Examples.account "U2" "B@x.com" true;
                   Examples.account "U9" "b@X.com" true] in
  let d2 := {| slack_id := PStr "U2"; reason := "they do not exist in corp LDAP." |} in
  let d9 := {| slack_id := PStr "U9"; reason := "they do not exist in corp LDAP." |} in
  let C : gmap string deletion := {[ "b@x.com" := d9 ]} in
  collect ∅ (directory ["a@x.com"]) (PList snapshot) = Ok C
  ∧ C !! "b@x.com" = Some d9
  ∧ size C = size (list_to_set ["b@x.com"; "b@x.com"] : gset string).
Proof.
  intros snapshot d2 d9 C.
  assert (collect ∅ (directory ["a@x.com"]) (PList snapshot) = Ok C) as Hcollect
    by reflexivity.
  split; [exact Hcollect|].
  destruct (C10_one_candidate_per_email Examples.scim_cfg ∅ (directory ["a@x.com"])
              snapshot C "b@x.com" d2 d9
              (Examples.account "U2" "B@x.com" true)
              (Examples.account "U9" "b@X.com" true) [] [] [])
    as (Hk & _ & _ & Hsize & _).
  - reflexivity.
  - vm_compute. reflexivity.
  - vm_compute. reflexivity.
  - constructor.
  - exact Hcollect.
  - split; [exact Hk|exact Hsize].
Defined.

(* ===================================================================== *)
(** ** Guests and bots (lines 105-106, 167) *)
(* ===================================================================== *)

Lemma prefix_app needle s : String.prefix needle (needle +:+ s) = true.
Proof.
  induction needle as [|c needle IH]; simpl; [by destruct s|].
  destruct (Ascii.ascii_dec c c); [exact IH|done].
Qed.

Lemma prefix_refl needle : String.prefix needle needle = true.
Proof.
  induction needle as [|c needle IH]; simpl; [done|].
  destruct (Ascii.ascii_dec c c); [exact IH|done].
Qed.

Lemma contains_suffix needle s : contains needle (s +:+ needle) = true.
Proof.
  induction s as [|c s IH].
  - change ("" +:+ needle) with needle.
    destruct needle; cbn [contains]; by rewrite prefix_refl.
  - change (String c s +:+ needle) with (String c (s +:+ needle)).
    cbn [contains]. rewrite IH. apply orb_true_r.
Qed.

Lemma ulower_app s1 s2 : ulower (s1 +:+ s2) = ulower s1 +:+ ulower s2.
Proof.
  induction s1 as [|c s1 IH]; [done|].
  change (String (lower_unicode c) (ulower (s1 +:+ s2))
          = String (lower_unicode c) (ulower s1 +:+ ulower s2)).
  by rewrite IH.
Qed.

(** An account is passed over when the guest dictionary holds a truthy
    value for its id, or when its email contains the bot domain. *)
Lemma collect_step_skips g ad acc u email listed active :
  email_of u = Ok email →
  getitem_key u "active" = Ok active →
  guest_email g u = Ok listed →
  truthy listed = true ∨ contains "@slack-bots.com" email = true →
  collect_step g ad acc u = Ok acc.
Proof.
  unfold email_of, guest_email, collect_step. intros Hemail Hactive Hguest Hskip.
  bindR_inv Hemail. cbn [bindR]. rewrite E0. cbn [bindR]. rewrite E1. cbn [bindR].
  rewrite Hemail. cbn [bindR]. rewrite Hactive. cbn [bindR].
  destruct (negb (truthy active)); [done|].
  bindR_inv Hguest. injection Hguest as <-. cbn [bindR]. rewrite E3. cbn [bindR].
  destruct Hskip as [-> | ->]; [done|]. by rewrite orb_true_r.
Qed.

Lemma collect_step_skips_bot g ad acc u raw listed active :
  email_of u = Ok (ulower (raw +:+ "@slack-bots.com")) →
  getitem_key u "active" = Ok active →
  guest_email g u = Ok listed →
  collect_step g ad acc u = Ok acc.
Proof.
  intros Hemail Hactive Hguest. eapply collect_step_skips; try done.
  right. rewrite ulower_app. apply contains_suffix.
Qed.

(** C8, at an input where the code departs from it: a restricted
    member whose profile email is the empty string is recorded in
    [guest_users] with a falsy value; the test of line 167 does not
    recognise it, the account becomes a candidate and, the failsafe
    being satisfied (one account of ten), it is deleted. *)
Theorem C8_guest_with_empty_email_is_candidate :
  (get_guest_users (Ok Examples.visitors)).2 = Ok {[KStr "G1" := PStr ""]}
  ∧ collect {[KStr "G1" := PStr ""]} (directory ["a@x.com"])
            (PList Examples.staff_and_visitor)
    = Ok {["visitor@partner.com" :=
             {| slack_id := PStr "G1"; reason := "they do not exist in corp LDAP." |}]}
  ∧ EvScimDelete (PStr "G1")
      ∈ (sync_slack_ldap Examples.scim_cfg Examples.guest_without_email).1.
Proof.
  split_and!.
  - vm_compute. reflexivity.
  - vm_compute. reflexivity.
  - vm_compute. apply list_elem_of_In. simpl. tauto.
Qed.

(* ===================================================================== *)
(** ** Errors of the acting phase (lines 125-134, 180-184) *)
(* ===================================================================== *)

Lemma bindM_ret_l {A B} (a : A) (k : A → M B) : bindM (ret a) k = k a.
Proof. unfold ret. simpl. by destruct (k a). Qed.

Lemma bindM_assoc {A B C} (m : M A) (k : A → M B) (h : B → M C) :
  bindM (bindM m k) h = bindM m (λ a, bindM (k a) h).
Proof.
  destruct m as [t [a|e]]; simpl; [|done].
  destruct (k a) as [t' [b|e']]; simpl; [|done].
  destruct (h b). by rewrite app_assoc.
Qed.

Lemma message_loop_app w message keys1 keys2 :
  message_loop w message (keys1 ++ keys2) =
  (message_loop w message keys1;;; message_loop w message keys2).
Proof.
  induction keys1 as [|owner keys1 IH].
  - cbn [message_loop app]. by rewrite bindM_ret_l.
  - rewrite <- app_comm_cons. cbn [message_loop]. by rewrite IH, !bindM_assoc.
Qed.

Lemma act_loop_app cfg w owners items1 items2 :
  act_loop cfg w owners (items1 ++ items2) =
  (act_loop cfg w owners items1;;; act_loop cfg w owners items2).
Proof.
  induction items1 as [|item items1 IH].
  - cbn [act_loop app]. by rewrite bindM_ret_l.
  - rewrite <- app_comm_cons. cbn [act_loop]. by rewrite IH, !bindM_assoc.
Qed.

(** The acting loop is the last statement of the cycle: its outcome is
    the outcome of the cycle. *)
Lemma sync_result_of_act_loop cfg w found :
  (candidates cfg w).2 = Ok found →
  (sync_slack_ldap cfg w).2 = (act_loop cfg w found.1 (map_to_list found.2)).2.
Proof. intros H. unfold sync_slack_ldap. by rewrite bindM_split, H. Qed.

(** C5 (as the code has it): an error on one candidate or on one
    recipient is not local.  When acting on one candidate raises (its
    DELETE is rejected, or a message about it is), the acting loop stops
    there: its trace ends with the events of that candidate, nothing is
    done for the candidates that follow in the iteration, and the
    exception is the outcome of the loop and, the loop being the last
    statement of [sync_slack_ldap], of the cycle.  When the message to
    one owner is rejected, the notification loop stops there: no
    message is sent to the owners that follow, and the exception is the
    outcome of [slack_message_owners]. *)
Theorem C5_errors_abort cfg w owners handled item rest e message served owner waiting :
  ((act_loop cfg w owners handled).2 = Ok tt →
   (act_on cfg w owners item).2 = Raise e →
   act_loop cfg w owners (handled ++ item :: rest)
     = ((act_loop cfg w owners handled).1 ++ (act_on cfg w owners item).1, Raise e))
  ∧ (∀ C,
       (candidates cfg w).2 = Ok (owners, C) →
       map_to_list C = handled ++ item :: rest →
       (act_loop cfg w owners handled).2 = Ok tt →
       (act_on cfg w owners item).2 = Raise e →
       sync_slack_ldap cfg w
         = ((candidates cfg w).1 ++ (act_loop cfg w owners handled).1
              ++ (act_on cfg w owners item).1,
            Raise e))
  ∧ ((message_loop w message served).2 = Ok tt →
     post_message_ok w owner message = false →
     message_loop w message (served ++ owner :: waiting)
       = ((message_loop w message served).1 ++ [EvPostMessage owner message],
          Raise HTTPError))
  ∧ (∀ recipients_of : gmap pykey pyval,
       map fst (map_to_list recipients_of) = served ++ owner :: waiting →
       (message_loop w message served).2 = Ok tt →
       post_message_ok w owner message = false →
       slack_message_owners w message recipients_of
         = ((message_loop w message served).1 ++ [EvPostMessage owner message],
            Raise HTTPError)).
Proof.
  assert ((act_loop cfg w owners handled).2 = Ok tt →
          (act_on cfg w owners item).2 = Raise e →
          act_loop cfg w owners (handled ++ item :: rest)
            = ((act_loop cfg w owners handled).1 ++ (act_on cfg w owners item).1,
               Raise e)) as Hact.
  { intros Hdone Hitem. rewrite act_loop_app, bindM_split, Hdone. cbn [act_loop].
    by rewrite bindM_split, Hitem. }
  assert ((message_loop w message served).2 = Ok tt →
          post_message_ok w owner message = false →
          message_loop w message (served ++ owner :: waiting)
            = ((message_loop w message served).1 ++ [EvPostMessage owner message],
               Raise HTTPError)) as Hpost.
  { intros Hserved Hrejected.
    rewrite message_loop_app, bindM_split, Hserved. cbn [message_loop].
    rewrite !bindM_split. cbn [tell fst snd]. by rewrite Hrejected. }
  split_and!; [exact Hact| |exact Hpost|].
  - intros C Hfound Hitems Hdone Hitem. unfold sync_slack_ldap.
    rewrite bindM_split, Hfound. cbn [fst snd].
    by rewrite Hitems, (Hact Hdone Hitem).
  - intros recipients_of Hkeys Hserved Hrejected. unfold slack_message_owners.
    by rewrite Hkeys, (Hpost Hserved Hrejected).
Qed.

Lemma C5_errors_abort_witness :
  let d := {| slack_id := PStr "U2"; reason := "they do not exist in corp LDAP." |} in
  let d' := {| slack_id := PStr "U10"; reason := "they do not exist in corp LDAP." |} in
  let message := DisabledText (PStr "U2") "b@x.com" "they do not exist in corp LDAP." in
  let owners : gmap pykey pyval :=
    {[KStr "O1" := PStr "boss@x.com"; KStr "O2" := PStr "chief@x.com"]} in
  (sync_slack_ldap Examples.scim_cfg Examples.revoke_rejected).2 = Raise HTTPError
  ∧ deleted_ids (sync_slack_ldap Examples.scim_cfg Examples.revoke_rejected).1
    = [PStr "U10"]
  ∧ slack_message_owners Examples.post_rejected message owners
    = ([EvPostMessage (KStr "O1") message], Raise HTTPError).
Proof.
  intros d d' message owners.
  destruct (C5_errors_abort Examples.scim_cfg Examples.revoke_rejected owners
              [] ("c@x.com", d') [("b@x.com", d)] HTTPError
              message [] (KStr "O1") [KStr "O2"]) as (_ & Hcycle & _).
  destruct (C5_errors_abort Examples.scim_cfg Examples.post_rejected owners
              [] ("c@x.com", d') [("b@x.com", d)] HTTPError
              message [] (KStr "O1") [KStr "O2"]) as (_ & _ & _ & Hnotify).
  specialize (Hcycle {["b@x.com" := d; "c@x.com" := d']}).
  rewrite Hcycle; [|vm_compute; reflexivity..].
  split_and!; [reflexivity|vm_compute; reflexivity|].
  apply Hnotify; vm_compute; reflexivity.
Defined.

(** C5, as stated, fails: with two candidates and a platform that
    rejects every DELETE, one DELETE is attempted and the cycle raises;
    with two owners and a platform that rejects every message, one
    message is attempted. *)
Lemma C5_counterexample :
  (∃ found, (candidates Examples.scim_cfg Examples.revoke_rejected).2 = Ok found
            ∧ size found.2 = 2)
  ∧ (sync_slack_ldap Examples.scim_cfg Examples.revoke_rejected).2 = Raise HTTPError
  ∧ length (filter (λ ev, is_delete ev = true)
              (sync_slack_ldap Examples.scim_cfg Examples.revoke_rejected).1) = 1
  ∧ (∃ owners, (get_owner_users (Ok Examples.members)).2 = Ok owners
               ∧ size owners = 2
               ∧ (slack_message_owners Examples.post_rejected LookingText owners).2
                 = Raise HTTPError
               ∧ length (filter (λ ev, is_post ev = true)
                           (slack_message_owners Examples.post_rejected
                              LookingText owners).1) = 1).
Proof.
  split_and!.
  - eexists. split; [vm_compute; reflexivity|]. vm_compute. reflexivity.
  - vm_compute. reflexivity.
  - vm_compute. reflexivity.
  - eexists. split_and!; [vm_compute; reflexivity| vm_compute; reflexivity ..].
Qed.

(* ===================================================================== *)
(** ** The two retrieval modes (lines 40-54, 153-156) *)
(* ===================================================================== *)

Lemma http_get_json_result ep response field :
  (http_get_json ep response field).2 = let? results := response in getitem_key results field.
Proof.
  unfold http_get_json. repeat (rewrite !bindM_split; cbn [tell lift fst snd]).
  by destruct response.
Qed.

Lemma candidates_result cfg w :
  (candidates cfg w).2 =
  let? g := (get_guest_users (guests_response w)).2 in
  let? o := (get_owner_users (owners_response w)).2 in
  let? s := (listing cfg w).2 in
  let? ad := (get_all_active_ad_users w).2 in
  let? C := reconcile cfg g s ad in
  Ok (o, C).
Proof.
  unfold candidates, fetch. rewrite ?bindM_split. cbn [tell fst snd].
  destruct (get_guest_users _).2 as [g|]; cbn [bindR fst snd]; [|done].
  rewrite ?bindM_split.
  destruct (get_owner_users _).2 as [o|]; cbn [bindR fst snd]; [|done].
  rewrite ?bindM_split.
  destruct (listing cfg w).2 as [s|]; cbn [bindR fst snd]; [|done].
  rewrite ?bindM_split.
  destruct (get_all_active_ad_users w).2 as [ad|]; cbn [bindR ret fst snd]; [|done].
  rewrite ?bindM_split. cbn [lift fst snd].
  by destruct (reconcile cfg g s ad).
Qed.

Lemma get_all_active_ad_users_ext w w' :
  ldap_bind_ok w = ldap_bind_ok w' →
  ldap_pages w = ldap_pages w' →
  get_all_active_ad_users w = get_all_active_ad_users w'.
Proof. unfold get_all_active_ad_users. by intros -> ->. Qed.

(** A record whose [active] field is falsy is passed over, whatever
    the mode that listed it. *)
Lemma collect_step_inactive g ad acc u email active :
  email_of u = Ok email →
  getitem_key u "active" = Ok active →
  truthy active = false →
  collect_step g ad acc u = Ok acc.
Proof.
  unfold email_of, collect_step. intros Hemail Hactive Hfalsy.
  bindR_inv Hemail. cbn [bindR]. rewrite E0. cbn [bindR]. rewrite E1. cbn [bindR].
  rewrite Hemail. cbn [bindR]. rewrite Hactive. cbn [bindR]. by rewrite Hfalsy.
Qed.

(** The collecting loop does not know which listing it reads: when
    the provisioning listing of one world and the legacy listing of
    another deliver the same records, and the other reads agree, the
    candidates (or the exception) are the same in the two modes; and a
    record with a falsy [active] field is passed over whatever the
    mode. *)
Lemma modes_share_reconciler threshold w w' body body' s g ad acc u email active :
  scim_response w = Ok body →
  getitem_key body "Resources" = Ok s →
  legacy_response w' = Ok body' →
  getitem_key body' "members" = Ok s →
  guests_response w = guests_response w' →
  owners_response w = owners_response w' →
  ldap_bind_ok w = ldap_bind_ok w' →
  ldap_pages w = ldap_pages w' →
  email_of u = Ok email →
  getitem_key u "active" = Ok active →
  truthy active = false →
  (candidates {| max_delete_failsafe := threshold; use_scim_api := true |} w).2
    = (candidates {| max_delete_failsafe := threshold; use_scim_api := false |} w').2
  ∧ collect_step g ad acc u = Ok acc.
Proof.
  intros Hscim Hres Hlegacy Hmem Hguests Howners Hbind Hpages Hemail Hactive Hfalsy.
  split; [|by eapply collect_step_inactive].
  rewrite !candidates_result. unfold listing. cbn [use_scim_api].
  unfold get_all_slack_users_scim, get_all_slack_users.
  rewrite !http_get_json_result, Hscim, Hlegacy. cbn [bindR]. rewrite Hres, Hmem.
  by rewrite Hguests, Howners, (get_all_active_ad_users_ext w w').
Qed.

(** A record without an [emails] field stops the collecting loop at
    line 162. *)
Lemma collect_step_without_emails g ad acc u :
  getitem_key u "emails" = Raise KeyError →
  collect_step g ad acc u = Raise KeyError.
Proof. unfold collect_step. by intros ->. Qed.

(** C6, at an input where the code departs from it: with [USE_SCIM_API]
    off, [api/users.list] answers with the records that [users.list]
    serves, the ones that [get_guest_users] and [get_owner_users] read
    (an id, a profile with an email, the flags).  [get_all_slack_users]
    returns them as they are; they have no [emails] and no [active]
    field, line 162 raises KeyError on the first of them, and the cycle
    reports nobody, although the directory does not know one of the
    addresses.  Iteration after iteration fails in the same way. *)
Theorem C6_legacy_listing_raises :
  let w := Examples.legacy_roster in
  legacy_response w = owners_response w
  ∧ is_ok (get_guest_users (guests_response w)).2 = true
  ∧ is_ok (get_owner_users (owners_response w)).2 = true
  ∧ (get_all_slack_users w).2 = Ok (PList Examples.roster)
  ∧ (sync_slack_ldap Examples.legacy_cfg w).2 = Raise KeyError
  ∧ recipients (sync_slack_ldap Examples.legacy_cfg w).1 = []
  ∧ (main_loop Examples.legacy_cfg [w; w; w] 0).2 = Ok 3
  ∧ recipients (main_loop Examples.legacy_cfg [w; w; w] 0).1 = [].
Proof. split_and!; vm_compute; reflexivity. Qed.

(* ===================================================================== *)
(** ** The main loop: counter and escalation (lines 197-212) *)
(* ===================================================================== *)

Lemma reads_cycle_trace t : reads t → cycle_trace t.
Proof. intros H. eapply Forall_impl; [exact H|]. by intros []. Qed.

Lemma message_loop_trace (P : event → Prop) w message keys :
  (∀ owner, P (EvPostMessage owner message)) →
  Forall P (message_loop w message keys).1.
Proof.
  intros HP. induction keys as [|owner keys IH]; cbn [message_loop].
  - constructor.
  - apply bindM_trace; [by repeat constructor|intros _].
    apply bindM_trace; [|by intros _]. destruct (post_message_ok _ _ _); constructor.
Qed.

Lemma act_on_cycle_trace cfg w owners item : cycle_trace (act_on cfg w owners item).1.
Proof.
  destruct item as [slack_email value].
  unfold cycle_trace, act_on, disable_slack_user, notify_admin_invalid_user,
    slack_message_owners.
  destruct (use_scim_api cfg).
  - apply bindM_trace; [|intros ?; constructor].
    apply bindM_trace; [by repeat constructor|intros _].
    apply bindM_trace; [destruct (scim_delete_ok _ _); constructor|intros _].
    apply bindM_trace; [by repeat constructor|intros _].
    apply bindM_trace; [|intros ?; constructor].
    apply bindM_trace; [|intros ?; constructor]. by apply message_loop_trace.
  - apply bindM_trace; [by repeat constructor|intros _].
    apply bindM_trace; [|intros ?; constructor].
    apply bindM_trace; [|intros ?; constructor]. by apply message_loop_trace.
Qed.

Lemma act_loop_cycle_trace cfg w owners items :
  cycle_trace (act_loop cfg w owners items).1.
Proof.
  unfold cycle_trace. induction items as [|item items IH]; cbn [act_loop].
  - constructor.
  - apply bindM_trace; [apply act_on_cycle_trace|by intros _].
Qed.

Lemma sync_cycle_trace cfg w : cycle_trace (sync_slack_ldap cfg w).1.
Proof.
  unfold cycle_trace, sync_slack_ldap, candidates.
  apply bindM_trace; [|intros ?; apply act_loop_cycle_trace].
  apply bindM_trace; [by repeat constructor|intros _].
  apply bindM_trace; [apply reads_cycle_trace, fetch_reads|intros [[[g o] s] ad]].
  apply bindM_trace; [apply lift_trace|intros ?; constructor].
Qed.

Lemma after_exception_cycle t t' :
  cycle_trace t → after_exception (t ++ t') = after_exception t'.
Proof.
  induction 1 as [|ev t Hev _ IH]; [done|]. rewrite <- app_comm_cons.
  by destruct ev.
Qed.

Lemma escalation_posts_cycle t : cycle_trace t → escalation_posts t = [].
Proof.
  induction 1 as [|ev t Hev _ IH]; [done|].
  unfold escalation_posts in *. rewrite omap_head, IH.
  destruct ev as [| | | | | |? []| | |]; done.
Qed.

Lemma escalation_posts_app t t' :
  escalation_posts (t ++ t') = escalation_posts t ++ escalation_posts t'.
Proof. apply omap_app. Qed.

Lemma cycle_trace_no_post t channel error :
  cycle_trace t → EvPostMessage channel (ErrorText error) ∉ t.
Proof.
  intros Ht Hin. eapply Forall_forall in Ht; [|exact Hin]. done.
Qed.

(** The iteration, case by case. *)
Lemma iteration_cases cfg w c :
  iteration cfg w c =
  match (sync_slack_ldap cfg w).2 with
  | Ok _ => ((sync_slack_ldap cfg w).1 ++ [EvLogInfo SleepingText; EvSleep], Ok 0)
  | Raise error =>
      if (((c + 1) mod 48) =? 4)%nat
      then match (escalate w error).2 with
           | Ok _ => ((sync_slack_ldap cfg w).1 ++ EvLogException error
                        :: (escalate w error).1 ++ [EvLogInfo SleepingText; EvSleep],
                      Ok (c + 1))
           | Raise e' => ((sync_slack_ldap cfg w).1 ++ EvLogException error
                            :: (escalate w error).1,
                          Raise e')
           end
      else ((sync_slack_ldap cfg w).1
              ++ [EvLogException error; EvLogInfo SleepingText; EvSleep],
            Ok (c + 1))
  end.
Proof.
  unfold iteration, handler.
  destruct (sync_slack_ldap cfg w) as [t [[]|error]]; cbn [fst snd].
  - done.
  - rewrite ?bindM_split. cbn [tell ret fst snd].
    destruct (((c + 1) mod 48) =? 4)%nat; cbn [ret fst snd].
    + destruct (escalate w error) as [t' [[]|e']]; cbn [fst snd]; [|done].
      f_equal. rewrite !app_nil_r, <- !app_assoc. done.
    + by rewrite <- !app_assoc.
Qed.

Lemma escalate_trace w error :
  ∃ t, (escalate w error).1 = EvHttpGet UsersList :: t.
Proof.
  unfold escalate, get_owner_users, http_get_json.
  rewrite !bindM_assoc. rewrite bindM_split. cbn [tell fst snd].
  eexists. reflexivity.
Qed.

Lemma message_loop_served w message keys :
  Forall (λ owner, post_message_ok w owner message = true) keys →
  message_loop w message keys = ((λ owner, EvPostMessage owner message) <$> keys, Ok tt).
Proof.
  induction 1 as [|owner keys Hok _ IH]; [done|].
  cbn [message_loop]. rewrite Hok, IH. done.
Qed.

Lemma escalate_served w error owners :
  (get_owner_users (handler_owners_response w)).2 = Ok owners →
  (∀ owner, post_message_ok w owner (ErrorText error) = true) →
  (escalate w error).2 = Ok tt
  ∧ escalation_posts (escalate w error).1 = map fst (map_to_list owners).
Proof.
  intros Howners Hposts. unfold escalate, slack_message_owners.
  rewrite bindM_split, Howners.
  rewrite message_loop_served by (apply Forall_forall; intros; apply Hposts).
  cbn [bindM ret fst snd]. split; [done|].
  rewrite !app_nil_r, escalation_posts_app.
  rewrite escalation_posts_cycle by apply reads_cycle_trace, get_owner_users_reads.
  cbn [app]. unfold escalation_posts.
  induction (map fst (map_to_list owners)) as [|owner keys IH]; [done|].
  rewrite fmap_cons, omap_head, IH. done.
Qed.

(** C4: in every iteration of the main loop, from every value [c] of
    the counter, the [except] block starts the escalation (it fetches
    the owners) exactly when the cycle raised and the incremented
    counter is 4 modulo 48; a message of the [except] block appears in
    the trace only then; when the owners are fetched and the platform
    accepts the messages, every owner is written to once; a cycle that
    returns sets the counter to 0 and a cycle that raises leaves it at
    [c + 1]. *)
Theorem C4_escalation_cadence cfg w c :
  let cycle := sync_slack_ldap cfg w in
  let out := iteration cfg w c in
  (escalation_attempted out.1 = true ↔ is_ok cycle.2 = false ∧ (c + 1) mod 48 = 4)
  ∧ (∀ channel error, EvPostMessage channel (ErrorText error) ∈ out.1 →
       is_ok cycle.2 = false ∧ (c + 1) mod 48 = 4)
  ∧ (∀ error owners,
       cycle.2 = Raise error → (c + 1) mod 48 = 4 →
       (get_owner_users (handler_owners_response w)).2 = Ok owners →
       (∀ owner, post_message_ok w owner (ErrorText error) = true) →
       out.2 = Ok (c + 1) ∧ escalation_posts out.1 = map fst (map_to_list owners))
  ∧ (is_ok cycle.2 = true → out.2 = Ok 0)
  ∧ (is_ok cycle.2 = false → ∀ c', out.2 = Ok c' → c' = c + 1)
  ∧ (is_ok cycle.2 = false → (c + 1) mod 48 ≠ 4 → out.2 = Ok (c + 1)).
Proof.
  intros cycle out. subst out. rewrite iteration_cases. fold cycle.
  pose proof (sync_cycle_trace cfg w) as Hcycle. fold cycle in Hcycle.
  destruct cycle.2 as [[]|error] eqn:Hresult; cbn [is_ok fst snd].
  - split_and!; try done.
    + unfold escalation_attempted. rewrite (after_exception_cycle _ _ Hcycle).
      simpl. naive_solver.
    + intros channel error Hin. apply elem_of_app in Hin as [Hin|Hin].
      * by apply cycle_trace_no_post in Hin.
      * set_solver.
  - destruct (((c + 1) mod 48) =? 4)%nat eqn:Hmod.
    + apply Nat.eqb_eq in Hmod.
      destruct (escalate_trace w error) as [t Ht].
      assert (escalation_attempted
                (cycle.1 ++ EvLogException error :: (escalate w error).1) = true
              ∧ ∀ tail, escalation_attempted
                (cycle.1 ++ EvLogException error :: (escalate w error).1 ++ tail) = true)
        as [Hshort Hlong].
      { unfold escalation_attempted.
        split; [|intros tail]; rewrite (after_exception_cycle _ _ Hcycle), Ht; done. }
      split_and!.
      * destruct (escalate w error).2; cbn [fst snd]; rewrite ?Hlong, ?Hshort; done.
      * done.
      * intros error' owners [= <-] _ Howners Hposts.
        destruct (escalate_served w error owners Howners Hposts) as [-> Hserved].
        cbn [fst snd]. split; [done|].
        rewrite escalation_posts_app, (escalation_posts_cycle _ Hcycle).
        change (EvLogException error :: ?l) with ([EvLogException error] ++ l).
        rewrite !escalation_posts_app, Hserved. cbn. by rewrite app_nil_r.
      * done.
      * intros _ c'. destruct (escalate w error).2; cbn [snd]; congruence.
      * done.
    + apply Nat.eqb_neq in Hmod. cbn [fst snd]. split_and!; try done.
      * unfold escalation_attempted. rewrite (after_exception_cycle _ _ Hcycle).
        simpl. naive_solver.
      * intros channel error' Hin. apply elem_of_app in Hin as [Hin|Hin].
        -- by apply cycle_trace_no_post in Hin.
        -- set_solver.
      * congruence.
Qed.

Lemma C4_escalation_cadence_witness :
  escalation_attempted (iteration Examples.scim_cfg Examples.ldap_down 3).1 = true
  ∧ (iteration Examples.scim_cfg Examples.ldap_down 3).2 = Ok 4
  ∧ escalation_attempted (iteration Examples.scim_cfg Examples.ldap_down 4).1 = false
  ∧ (iteration Examples.scim_cfg Examples.healthy 4).2 = Ok 0.
Proof.
  destruct (C4_escalation_cadence Examples.scim_cfg Examples.ldap_down 3)
    as (Hiff & _ & Hsent & _).
  destruct (C4_escalation_cadence Examples.scim_cfg Examples.ldap_down 4)
    as (Hiff' & _).
  destruct (C4_escalation_cadence Examples.scim_cfg Examples.healthy 4)
    as (_ & _ & _ & Hreset & _).
  split_and!.
  - apply Hiff. split; reflexivity.
  - eapply Hsent; [reflexivity|reflexivity|reflexivity|done].
  - apply not_true_is_false. intros H. apply Hiff' in H as [_ H]. discriminate H.
  - apply Hreset. reflexivity.
Defined.

(* ===================================================================== *)
(** ** The main loop: what leaves it (lines 198-212) *)
(* ===================================================================== *)

(** X16: an iteration in which the [except] block does not escalate
    (the incremented counter is not 4 modulo 48) is absorbed, whatever
    the cycle raised: the loop goes on to the sleep. *)
Lemma iteration_absorbs cfg w c :
  (c + 1) mod 48 ≠ 4 → is_ok (iteration cfg w c).2 = true.
Proof.
  intros Hmod. rewrite iteration_cases.
  destruct (sync_slack_ldap cfg w).2; [done|].
  apply Nat.eqb_neq in Hmod. by rewrite Hmod.
Qed.

(** X17: an exception raised by the escalation itself (lines 208-209
    run inside the [except] block, outside the [try]) leaves the loop
    and ends the run, whatever iterations were still to come. *)
Lemma escalation_failure_leaves_loop cfg w worlds c error e' :
  (sync_slack_ldap cfg w).2 = Raise error →
  (c + 1) mod 48 = 4 →
  (escalate w error).2 = Raise e' →
  (main_loop cfg (w :: worlds) c).2 = Raise e'.
Proof.
  intros Hcycle Hmod Hescalate. cbn [main_loop].
  rewrite bindM_split, iteration_cases, Hcycle.
  apply Nat.eqb_eq in Hmod. by rewrite Hmod, Hescalate.
Qed.

(** C9, at an input where the code departs from it: the
    platform is unreachable for five iterations.  The first three
    failures are absorbed; at the fourth the [except] block calls
    [get_owner_users], which raises outside any [try]: the exception
    leaves the loop after three sleeps and the fifth iteration never
    runs. *)
Theorem C9_escalation_failure_ends_loop :
  (main_loop Examples.scim_cfg (replicate 5 Examples.slack_down) 0).2 = Raise HTTPError
  ∧ length (filter (λ ev, is_sleep ev = true)
              (main_loop Examples.scim_cfg (replicate 5 Examples.slack_down) 0).1) = 3
  ∧ (main_loop Examples.scim_cfg (replicate 3 Examples.slack_down) 0).2 = Ok 3.
Proof. split_and!; vm_compute; reflexivity. Qed.

(* ===================================================================== *)
(** ** End-to-end scenarios *)
(* ===================================================================== *)

(** One account whose email differs from the directory's in letter
    case only: the cycle returns and touches nothing. *)
Example scenario_case_insensitive :
  let w := Examples.workspace [Examples.account "1" "A@X.com" true] ["a@x.com"] in
  (sync_slack_ldap Examples.scim_cfg w).2 = Ok tt
  ∧ filter (λ ev, mutation ev = true) (sync_slack_ldap Examples.scim_cfg w).1 = [].
Proof. split; vm_compute; reflexivity. Qed.

(** An empty directory and ten active accounts: the failsafe raises
    and nothing is revoked. *)
Example scenario_empty_directory :
  let w := Examples.workspace Examples.staff [] in
  (sync_slack_ldap Examples.scim_cfg w).2 = Raise FailsafeExceeded
  ∧ filter (λ ev, mutation ev = true) (sync_slack_ldap Examples.scim_cfg w).1 = [].
Proof. split; vm_compute; reflexivity. Qed.

(** Ten active accounts, one of them unknown to the directory: ratio
    0.1, the account is revoked and both owners are told. *)
Example scenario_one_leaver :
  let w := Examples.workspace (Examples.staff_and_leaver true) ["a@x.com"] in
  let message := DisabledText (PStr "U10") "gone@x.com" "they do not exist in corp LDAP." in
  (sync_slack_ldap Examples.scim_cfg w).2 = Ok tt
  ∧ filter (λ ev, mutation ev = true) (sync_slack_ldap Examples.scim_cfg w).1
    = [EvScimDelete (PStr "U10");
       EvPostMessage (KStr "O1") message; EvPostMessage (KStr "O2") message].
Proof. split; vm_compute; reflexivity. Qed.

(* ===================================================================== *)
(** ** Guest and owner dictionaries (lines 97-119) *)
(* ===================================================================== *)

Lemma guest_step_cases acc user acc' :
  guest_step acc user = Ok acc' →
  (is_guest_member user = false ∧ acc' = acc)
  ∨ (is_guest_member user = true
     ∧ ∃ k email, member_key user = Ok k ∧ member_email user = Ok email
                  ∧ acc' = <[k := email]> acc).
Proof.
  unfold guest_step, is_guest_member, member_key, member_email.
  destruct user as [| | | | |d]; try done. cbn [py_get bindR].
  destruct (truthy (default PNone (assoc "is_ultra_restricted" d))) eqn:Hultra;
    cbn [bindR orb].
  - intros H. bindR_inv H. injection H as <-. right. split; [done|].
    do 2 eexists. cbn [bindR]. split_and!; eauto.
  - destruct (truthy (default PNone (assoc "is_restricted" d))) eqn:Hres.
    + intros H. bindR_inv H. injection H as <-. right. split; [done|].
      do 2 eexists. cbn [bindR]. split_and!; eauto.
    + intros [= <-]. by left.
Qed.

Lemma owner_step_cases acc user acc' :
  owner_step acc user = Ok acc' →
  (is_owner_member user = false ∧ acc' = acc)
  ∨ (is_owner_member user = true
     ∧ ∃ k email, member_key user = Ok k ∧ member_email user = Ok email
                  ∧ acc' = <[k := email]> acc).
Proof.
  unfold owner_step, is_owner_member, member_key, member_email.
  destruct user as [| | | | |d]; try done. cbn [py_get bindR].
  destruct (truthy (default PNone (assoc "is_owner" d))) eqn:Howner.
  - intros H. bindR_inv H. injection H as <-. right. split; [done|].
    do 2 eexists. cbn [bindR]. split_and!; eauto.
  - intros [= <-]. by left.
Qed.

(** The bindings of a dictionary built by a loop whose steps either
    leave the accumulator alone or insert the key and email of a
    flagged member. *)
Lemma flagged_loop_lookup (step : gmap pykey pyval → pyval → result (gmap pykey pyval))
    (flag : pyval → bool) :
  (∀ acc user acc', step acc user = Ok acc' →
     (flag user = false ∧ acc' = acc)
     ∨ (flag user = true
        ∧ ∃ k email, member_key user = Ok k ∧ member_email user = Ok email
                     ∧ acc' = <[k := email]> acc)) →
  ∀ users acc d k email,
    for_each step acc users = Ok d →
    d !! k = Some email →
    acc !! k = Some email
    ∨ ∃ user, user ∈ users ∧ flag user = true
              ∧ member_key user = Ok k ∧ member_email user = Ok email.
Proof.
  intros Hstep users. induction users as [|user users IH]; intros acc d k email.
  - intros [= <-] Hk. by left.
  - cbn [for_each]. destruct (step acc user) as [acc'|] eqn:Huser; [|done].
    cbn [bindR]. intros Hloop Hk.
    destruct (IH _ _ _ _ Hloop Hk) as [Hacc|(user' & Hin & Hrest)].
    + destruct (Hstep _ _ _ Huser) as [[_ ->]|(Hflag & k' & email' & Hkey & Hemail & ->)];
        [by left|].
      rewrite lookup_insert in Hacc. case_decide as Hkk.
      * injection Hacc as <-. subst k'. right. exists user.
        split; [by left|done].
      * by left.
    + right. exists user'. split; [by right|done].
Qed.

Lemma flagged_loop_dom (step : gmap pykey pyval → pyval → result (gmap pykey pyval))
    (flag : pyval → bool) :
  (∀ acc user acc', step acc user = Ok acc' →
     (flag user = false ∧ acc' = acc)
     ∨ (flag user = true
        ∧ ∃ k email, member_key user = Ok k ∧ member_email user = Ok email
                     ∧ acc' = <[k := email]> acc)) →
  ∀ users acc d user k,
    for_each step acc users = Ok d →
    user ∈ users → flag user = true → member_key user = Ok k →
    k ∈ dom d.
Proof.
  intros Hstep.
  assert (∀ users acc d k, for_each step acc users = Ok d → k ∈ dom acc → k ∈ dom d)
    as Hmono.
  { induction users as [|user users IH]; intros acc d k.
    - by intros [= <-].
    - cbn [for_each]. destruct (step acc user) as [acc'|] eqn:Huser; [|done].
      cbn [bindR]. intros Hloop Hk. apply (IH _ _ _ Hloop).
      destruct (Hstep _ _ _ Huser) as [[_ ->]|(_ & k' & email' & _ & _ & ->)];
        [done|set_solver]. }
  induction users as [|user' users IH]; intros acc d user k Hloop Hin Hflag Hkey.
  - by apply elem_of_nil in Hin.
  - cbn [for_each] in Hloop.
    destruct (step acc user') as [acc'|] eqn:Huser; [|done]. cbn [bindR] in Hloop.
    apply elem_of_cons in Hin as [<-|Hin]; [|by eapply IH].
    apply (Hmono _ _ _ _ Hloop).
    destruct (Hstep _ _ _ Huser) as [[Hno _]|(_ & k' & email' & Hkey' & _ & ->)];
      [congruence|].
    rewrite Hkey in Hkey'. injection Hkey' as <-. set_solver.
Qed.

Lemma get_guest_users_loop response body members users g :
  response = Ok body →
  getitem_key body "members" = Ok members →
  py_iter members = Ok users →
  (get_guest_users response).2 = Ok g →
  for_each guest_step ∅ users = Ok g.
Proof.
  intros -> Hmembers Husers. unfold get_guest_users.
  rewrite bindM_split, http_get_json_result. cbn [bindR]. rewrite Hmembers.
  cbn [lift snd]. by rewrite Husers.
Qed.

Lemma get_owner_users_loop response body members users g :
  response = Ok body →
  getitem_key body "members" = Ok members →
  py_iter members = Ok users →
  (get_owner_users response).2 = Ok g →
  for_each owner_step ∅ users = Ok g.
Proof.
  intros -> Hmembers Husers. unfold get_owner_users.
  rewrite bindM_split, http_get_json_result. cbn [bindR]. rewrite Hmembers.
  cbn [lift snd]. by rewrite Husers.
Qed.

(** X1: the dictionary returned by [get_guest_users] has a key exactly
    for the ids of the members that are restricted or ultra restricted,
    and the value of a key is the profile email of such a member. *)
Theorem guest_users_are_the_restricted_members body members users g :
  getitem_key body "members" = Ok members →
  py_iter members = Ok users →
  (get_guest_users (Ok body)).2 = Ok g →
  (∀ k, k ∈ dom g ↔ ∃ user, user ∈ users ∧ is_guest_member user = true
                            ∧ member_key user = Ok k)
  ∧ (∀ k email, g !! k = Some email →
       ∃ user, user ∈ users ∧ is_guest_member user = true
               ∧ member_key user = Ok k ∧ member_email user = Ok email).
Proof.
  intros Hmembers Husers Hg.
  pose proof (get_guest_users_loop _ _ _ _ _ eq_refl Hmembers Husers Hg) as Hloop.
  assert (∀ k email, g !! k = Some email →
            ∃ user, user ∈ users ∧ is_guest_member user = true
                    ∧ member_key user = Ok k ∧ member_email user = Ok email) as Hvalues.
  { intros k email Hk.
    destruct (flagged_loop_lookup _ _ guest_step_cases _ _ _ _ _ Hloop Hk) as [Hempty|H];
      [by rewrite lookup_empty in Hempty|done]. }
  split; [|done]. intros k. split.
  - intros [email Hk]%elem_of_dom. destruct (Hvalues _ _ Hk) as (user & ? & ? & ? & _).
    by exists user.
  - intros (user & Hin & Hflag & Hkey).
    by eapply (flagged_loop_dom _ _ guest_step_cases).
Qed.

(** X2: the dictionary returned by [get_owner_users] has a key exactly
    for the ids of the members flagged [is_owner], and the value of a
    key is the profile email of such a member. *)
Theorem owner_users_are_the_owner_members body members users o :
  getitem_key body "members" = Ok members →
  py_iter members = Ok users →
  (get_owner_users (Ok body)).2 = Ok o →
  (∀ k, k ∈ dom o ↔ ∃ user, user ∈ users ∧ is_owner_member user = true
                            ∧ member_key user = Ok k)
  ∧ (∀ k email, o !! k = Some email →
       ∃ user, user ∈ users ∧ is_owner_member user = true
               ∧ member_key user = Ok k ∧ member_email user = Ok email).
Proof.
  intros Hmembers Husers Ho.
  pose proof (get_owner_users_loop _ _ _ _ _ eq_refl Hmembers Husers Ho) as Hloop.
  assert (∀ k email, o !! k = Some email →
            ∃ user, user ∈ users ∧ is_owner_member user = true
                    ∧ member_key user = Ok k ∧ member_email user = Ok email) as Hvalues.
  { intros k email Hk.
    destruct (flagged_loop_lookup _ _ owner_step_cases _ _ _ _ _ Hloop Hk) as [Hempty|H];
      [by rewrite lookup_empty in Hempty|done]. }
  split; [|done]. intros k. split.
  - intros [email Hk]%elem_of_dom. destruct (Hvalues _ _ Hk) as (user & ? & ? & ? & _).
    by exists user.
  - intros (user & Hin & Hflag & Hkey).
    by eapply (flagged_loop_dom _ _ owner_step_cases).
Qed.

Lemma guest_users_are_the_restricted_members_witness :
  ∃ user, user ∈ [Examples.member "O1" "boss@x.com" false true;
                  Examples.member "G1" "" true false]
          ∧ is_guest_member user = true ∧ member_key user = Ok (KStr "G1").
Proof.
  apply (proj1 (guest_users_are_the_restricted_members Examples.visitors
                  (PList [Examples.member "O1" "boss@x.com" false true;
                          Examples.member "G1" "" true false])
                  _ {[KStr "G1" := PStr ""]} eq_refl eq_refl eq_refl)).
  apply elem_of_dom. by eexists.
Defined.

Lemma owner_users_are_the_owner_members_witness :
  ∃ user, user ∈ [Examples.member "O1" "boss@x.com" false true;
                  Examples.member "G1" "" true false]
          ∧ is_owner_member user = true ∧ member_key user = Ok (KStr "O1").
Proof.
  apply (proj1 (owner_users_are_the_owner_members Examples.visitors
                  (PList [Examples.member "O1" "boss@x.com" false true;
                          Examples.member "G1" "" true false])
                  _ {[KStr "O1" := PStr "boss@x.com"]} eq_refl eq_refl eq_refl)).
  apply elem_of_dom. by eexists.
Defined.

(* ===================================================================== *)
(** ** The candidates are the qualifying accounts (lines 161-171) *)
(* ===================================================================== *)

Lemma email_of_lower u k : email_of u = Ok k → lower k = k.
Proof.
  unfold email_of. intros H. bindR_inv H.
  destruct x1; try done. injection H as <-. apply ulower_fixed, ulower_idemp.
Qed.

Lemma collect_step_cases g ad acc u acc' :
  collect_step g ad acc u = Ok acc' →
  acc' = acc ∨ ∃ k id, qualifies g ad u k id ∧ acc' = <[k := deletion_of id]> acc.
Proof.
  unfold collect_step, qualifies, email_of, guest_email.
  destruct (getitem_key u "emails") as [emails|]; [cbn [bindR]|done].
  destruct (getitem_0 emails) as [first|]; [cbn [bindR]|done].
  destruct (getitem_key first "value") as [value|]; [cbn [bindR]|done].
  destruct (py_lower value) as [email|]; [cbn [bindR]|done].
  destruct (getitem_key u "active") as [active|]; [cbn [bindR]|done].
  destruct (truthy active) eqn:Hactive; cbn [negb]; [|intros [= <-]; by left].
  destruct (getitem_key u "id") as [id|]; [cbn [bindR]|done].
  destruct (hash_key id) as [key|]; [cbn [bindR]|done].
  destruct (truthy (default PNone (g !! key))) eqn:Hguest; cbn [orb];
    [intros [= <-]; by left|].
  destruct (contains "@slack-bots.com" email) eqn:Hbot; [intros [= <-]; by left|].
  destruct (default false (get_by_text ad email)) eqn:Hknown; cbn [negb];
    intros [= <-]; [by left|].
  right. exists email, id. split; [|done]. split_and!; eauto.
Qed.

Lemma collect_step_qualified g ad acc u k id :
  qualifies g ad u k id →
  collect_step g ad acc u = Ok (<[k := deletion_of id]> acc).
Proof.
  unfold qualifies, collect_step, email_of, guest_email.
  intros (Hemail & (active & Hactive & Htruthy) & Hid & (listed & Hlisted & Hfalsy)
          & Hbot & Hknown).
  bindR_inv Hemail. cbn [bindR]. rewrite E0. cbn [bindR]. rewrite E1. cbn [bindR].
  rewrite Hemail. cbn [bindR]. rewrite Hactive. cbn [bindR]. rewrite Htruthy.
  cbn [negb]. rewrite Hid in Hlisted |- *. cbn [bindR] in Hlisted |- *.
  bindR_inv Hlisted. injection Hlisted as <-. cbn [bindR].
  by rewrite Hfalsy, Hbot, Hknown.
Qed.

(** X3: every binding of the candidate dictionary comes from an account
    of the snapshot that is active, is not listed with a truthy value in
    the guest dictionary, has no bot address, and whose lower-cased
    email the lookup of line 170 does not find in the directory; the
    binding carries the id of that account and the fixed reason. *)
Theorem candidates_are_qualifying_accounts g ad s users C k d :
  py_iter s = Ok users →
  collect g ad s = Ok C →
  C !! k = Some d →
  ∃ u, u ∈ users ∧ qualifies g ad u k (slack_id d)
       ∧ d = deletion_of (slack_id d) ∧ lower k = k.
Proof.
  unfold collect. intros -> Hloop. cbn [bindR] in Hloop.
  assert (∀ users acc C, for_each (collect_step g ad) acc users = Ok C →
            ∀ k d, C !! k = Some d →
              acc !! k = Some d
              ∨ ∃ u, u ∈ users ∧ qualifies g ad u k (slack_id d)
                     ∧ d = deletion_of (slack_id d)) as Hgen.
  { clear. induction users as [|u users IH]; intros acc C.
    - intros [= <-] k d Hk. by left.
    - cbn [for_each]. destruct (collect_step g ad acc u) as [acc'|] eqn:Hu; [|done].
      cbn [bindR]. intros Hloop k d Hk.
      destruct (IH _ _ Hloop _ _ Hk) as [Hacc|(u' & Hin & Hrest)].
      + destruct (collect_step_cases _ _ _ _ _ Hu) as [->|(k' & id & Hq & ->)];
          [by left|].
        rewrite lookup_insert in Hacc. case_decide as Hkk; [|by left].
        injection Hacc as <-. subst k'. right. exists u. split; [by left|done].
      + right. exists u'. split; [by right|done]. }
  intros Hk. destruct (Hgen _ _ _ Hloop _ _ Hk) as [Hempty|(u & Hin & Hq & Hd)];
    [by rewrite lookup_empty in Hempty|].
  exists u. split_and!; try done. destruct Hq as [Hemail _].
  by apply email_of_lower in Hemail.
Qed.

Lemma candidates_are_qualifying_accounts_witness :
  ∃ u, u ∈ Examples.staff_and_leaver true
       ∧ qualifies ∅ (directory ["a@x.com"]) u "gone@x.com" (PStr "U10")
       ∧ deletion_of (PStr "U10") = deletion_of (PStr "U10")
       ∧ lower "gone@x.com" = "gone@x.com".
Proof.
  apply (candidates_are_qualifying_accounts ∅ (directory ["a@x.com"])
           (PList (Examples.staff_and_leaver true)) _
           {["gone@x.com" := deletion_of (PStr "U10")]}
           "gone@x.com" (deletion_of (PStr "U10")) eq_refl).
  - vm_compute. reflexivity.
  - vm_compute. reflexivity.
Defined.

(** X4: conversely, when the collecting loop returns, the lower-cased
    email of every qualifying account of the snapshot is a key of the
    candidate dictionary. *)
Theorem qualifying_accounts_are_candidates g ad s users C u k id :
  py_iter s = Ok users →
  collect g ad s = Ok C →
  u ∈ users →
  qualifies g ad u k id →
  is_Some (C !! k).
Proof.
  unfold collect. intros -> Hloop Hin Hq. cbn [bindR] in Hloop.
  rewrite <- elem_of_dom, (collect_loop_dom _ _ _ _ _ Hloop).
  apply elem_of_union_r, elem_of_list_to_set. unfold absent_emails.
  apply list_elem_of_bind. exists u. split; [|done].
  rewrite (collect_step_qualified _ _ ∅ _ _ _ Hq), insert_empty, dom_singleton_L.
  apply elem_of_elements. set_solver.
Qed.

Lemma qualifying_accounts_are_candidates_witness :
  is_Some (({["gone@x.com" := deletion_of (PStr "U10")]} : gmap string deletion)
             !! "gone@x.com").
Proof.
  apply (qualifying_accounts_are_candidates ∅ (directory ["a@x.com"])
           (PList (Examples.staff_and_leaver true)) _ _
           (Examples.account "U10" "gone@x.com" true) "gone@x.com" (PStr "U10")
           eq_refl).
  - vm_compute. reflexivity.
  - unfold Examples.staff_and_leaver. set_solver.
  - unfold qualifies. split_and!; [done|by eexists|done|by eexists|done|done].
Defined.

(* ===================================================================== *)
(** ** Failures before the acting loop (lines 150-177) *)
(* ===================================================================== *)

Lemma candidates_quiet cfg w : quiet (candidates cfg w).1.
Proof.
  unfold quiet, candidates.
  apply bindM_trace; [by repeat constructor|intros _].
  apply bindM_trace; [apply fetch_quiet|intros [[[g o] s] ad]].
  apply bindM_trace; [apply lift_trace|intros ?; constructor].
Qed.

Lemma failure_before_acting_is_quiet_aux cfg w e :
  (candidates cfg w).2 = Raise e →
  (sync_slack_ldap cfg w).2 = Raise e ∧ quiet (sync_slack_ldap cfg w).1.
Proof.
  intros H. unfold sync_slack_ldap. rewrite bindM_split, H. cbn [fst snd].
  split; [done|apply candidates_quiet].
Qed.

(** X5: whatever is raised before the acting loop (by a read, by a
    malformed record, by the ratio or by the failsafe) is the outcome
    of the cycle, and the cycle has then sent no DELETE and no
    message. *)
Theorem failure_before_acting_is_quiet cfg w e :
  (candidates cfg w).2 = Raise e →
  (sync_slack_ldap cfg w).2 = Raise e ∧ quiet (sync_slack_ldap cfg w).1.
Proof. apply failure_before_acting_is_quiet_aux. Qed.

Lemma failure_before_acting_is_quiet_witness :
  (sync_slack_ldap Examples.scim_cfg Examples.ldap_down).2 = Raise LDAPError
  ∧ quiet (sync_slack_ldap Examples.scim_cfg Examples.ldap_down).1.
Proof.
  apply failure_before_acting_is_quiet. vm_compute. reflexivity.
Defined.

Lemma for_each_raises {A S} (step : S → A → result S) (x : A) (l : list A) :
  x ∈ l → (∀ acc, is_ok (step acc x) = false) →
  ∀ acc, is_ok (for_each step acc l) = false.
Proof.
  intros Hin Hx. induction l as [|y l IH]; intros acc;
    [by apply elem_of_nil in Hin|].
  cbn [for_each]. destruct (step acc y) as [acc'|] eqn:Hy; [|done]. cbn [bindR].
  apply elem_of_cons in Hin as [<-|Hin]; [|by apply IH].
  specialize (Hx acc). by rewrite Hy in Hx.
Qed.

(** X6: one record of the account listing on which
    [slack_user['emails'][0]['value'].lower()] or [slack_user['active']]
    raises makes the whole cycle raise, whatever the other records are,
    and nobody is revoked or written to. *)
Theorem malformed_record_aborts_cycle cfg w t g o s ad users u :
  fetch cfg w = (t, Ok (g, o, s, ad)) →
  py_iter s = Ok users →
  u ∈ users →
  is_ok (email_of u) = false ∨ is_ok (getitem_key u "active") = false →
  is_ok (sync_slack_ldap cfg w).2 = false ∧ quiet (sync_slack_ldap cfg w).1.
Proof.
  intros Hfetch Husers Hin Hbad.
  assert (is_ok (collect g ad s) = false) as Hcollect.
  { unfold collect. rewrite Husers. cbn [bindR].
    apply (for_each_raises _ u); [done|]. intros acc.
    unfold collect_step. unfold email_of in Hbad.
    destruct (getitem_key u "emails") as [emails|]; [cbn [bindR] in *|done].
    destruct (getitem_0 emails) as [first|]; [cbn [bindR] in *|done].
    destruct (getitem_key first "value") as [value|]; [cbn [bindR] in *|done].
    destruct (py_lower value) as [email|]; [cbn [bindR] in *|done].
    destruct Hbad as [Hbad|Hbad]; [done|].
    by destruct (getitem_key u "active"). }
  destruct (candidates cfg w).2 as [found|e] eqn:Hfound.
  - exfalso. rewrite (candidates_after_fetch _ _ _ _ _ _ _ Hfetch) in Hfound.
    unfold reconcile in Hfound. destruct (collect g ad s); [done|].
    cbn [bindR] in Hfound. done.
  - destruct (failure_before_acting_is_quiet_aux cfg w e Hfound) as [-> Hq]. done.
Qed.

Lemma malformed_record_aborts_cycle_witness :
  is_ok (sync_slack_ldap Examples.legacy_cfg Examples.mixed_records).2 = false
  ∧ quiet (sync_slack_ldap Examples.legacy_cfg Examples.mixed_records).1.
Proof.
  eapply (malformed_record_aborts_cycle Examples.legacy_cfg Examples.mixed_records
            _ _ _ _ _ _ (Examples.member "U2" "b@x.com" false false)).
  - vm_compute. reflexivity.
  - reflexivity.
  - set_solver.
  - left. reflexivity.
Defined.

(* ===================================================================== *)
(** ** The LDAP conversation (lines 62-93) *)
(* ===================================================================== *)

Lemma get_all_active_ad_users_cases w :
  get_all_active_ad_users w =
  if ldap_bind_ok w
  then match (paged_loop (ldap_pages w) ∅).2 with
       | Ok ad => (EvLdapBind :: EvLdapSearch ""
                     :: (paged_loop (ldap_pages w) ∅).1 ++ [EvLdapUnbind], Ok ad)
       | Raise e => (EvLdapBind :: EvLdapSearch "" :: (paged_loop (ldap_pages w) ∅).1,
                     Raise e)
       end
  else ([EvLdapBind], Raise LDAPError).
Proof.
  unfold get_all_active_ad_users. destruct (ldap_bind_ok w); [|done].
  cbn [tell ret bindM app].
  by destruct (paged_loop (ldap_pages w) ∅) as [t [ad|e]].
Qed.

Lemma paged_loop_no_unbind pages acc :
  Forall (λ ev, ev ≠ EvLdapUnbind) (paged_loop pages acc).1.
Proof.
  revert acc. induction pages as [|r pages IH]; intros acc.
  - trace_tac; done.
  - cbn [paged_loop]. apply bindM_trace; [trace_tac; done|intros _].
    apply bindM_trace; [apply lift_trace|intros acc'].
    destruct (pctrls r) as [|c ?]; [trace_tac; done|].
    destruct (String.eqb (cookie c) ""); [trace_tac; done|].
    apply bindM_trace; [trace_tac; done|intros _]. apply IH.
Qed.

(** X7: [unbind_s] is called exactly when the enumeration returns: on
    every exception (bind failure, a failing [result3], a malformed
    entry, a response without the paging control) the connection is
    left bound. *)
Theorem unbind_only_after_success w :
  EvLdapUnbind ∈ (get_all_active_ad_users w).1
  ↔ is_ok (get_all_active_ad_users w).2 = true.
Proof.
  rewrite get_all_active_ad_users_cases.
  pose proof (paged_loop_no_unbind (ldap_pages w) ∅) as Hloop.
  destruct (ldap_bind_ok w); [|set_solver].
  destruct (paged_loop (ldap_pages w) ∅).2; cbn [fst snd is_ok].
  - split; [done|]. intros _. set_solver.
  - split; [|done]. intros Hin.
    apply elem_of_cons in Hin as [|Hin]; [done|].
    apply elem_of_cons in Hin as [|Hin]; [done|].
    eapply Forall_forall in Hloop; [|exact Hin]. done.
Qed.

Lemma paged_loop_trace init stop rest : ∀ S,
  forallb continues init = true →
  stops stop = true →
  forallb page_ok (init ++ [stop]) = true →
  (paged_loop (init ++ stop :: rest) (gset_to_gmap true S)).1 =
  (init ≫= λ r, [EvLdapResult; EvLdapSearch (next_cookie r)]) ++ [EvLdapResult].
Proof.
  induction init as [|r init IH]; intros S Hinit Hstop Hok.
  - simpl in Hok. apply andb_prop in Hok as [Hok _].
    rewrite app_nil_l. cbn [paged_loop mbind list_bind app].
    rewrite !bindM_split. cbn [tell lift fst snd].
    rewrite ingest_entries_spec by done. cbn [fst snd app].
    unfold stops, continues, paging_cookie in Hstop.
    destruct (pctrls stop) as [|c ?]; [done|].
    simpl in Hstop. apply negb_true_iff, negb_false_iff in Hstop.
    by rewrite Hstop.
  - simpl in Hinit, Hok.
    apply andb_prop in Hinit as [Hr Hinit]. apply andb_prop in Hok as [Hrok Hok].
    rewrite <- app_comm_cons, bind_cons. cbn [paged_loop].
    rewrite !bindM_split. cbn [tell lift fst snd].
    rewrite ingest_entries_spec by done. cbn [fst snd app].
    assert (∃ c l, pctrls r = c :: l ∧ String.eqb (cookie c) "" = false
                   ∧ next_cookie r = cookie c) as (c & l & Hp & Hc & Hnext).
    { unfold continues, next_cookie, paging_cookie in *.
      destruct (pctrls r) as [|c l]; [done|]. exists c, l.
      simpl in Hr. by apply negb_true_iff in Hr. }
    rewrite Hp, Hc, Hnext, bindM_split. cbn [tell fst snd app].
    by rewrite (IH _ Hinit Hstop Hok).
Qed.

(** X8: on a paged answer the conversation is: bind, a search with the
    empty cookie, then for every page but the last one [result3]
    followed by a search that carries the cookie of that page, then the
    last [result3], and the unbind when the last page carries the
    paging control. *)
Theorem searches_echo_the_cookies w init stop rest :
  ldap_bind_ok w = true →
  ldap_pages w = init ++ stop :: rest →
  forallb continues init = true →
  stops stop = true →
  forallb page_ok (init ++ [stop]) = true →
  (get_all_active_ad_users w).1 =
  [EvLdapBind; EvLdapSearch ""]
    ++ (init ≫= λ r, [EvLdapResult; EvLdapSearch (next_cookie r)])
    ++ EvLdapResult
    :: match paging_cookie stop with
       | Some _ => [EvLdapUnbind]
       | None => []
       end.
Proof.
  intros Hbind Hpages Hinit Hstop Hok.
  rewrite get_all_active_ad_users_cases, Hbind, Hpages.
  rewrite <- gset_to_gmap_empty with (x := true).
  rewrite paged_loop_spec, paged_loop_trace by done.
  destruct (paging_cookie stop); cbn [fst]; by rewrite <- ?app_assoc.
Qed.

Lemma searches_echo_the_cookies_witness :
  (get_all_active_ad_users Examples.two_pages).1 =
  [EvLdapBind; EvLdapSearch ""; EvLdapResult; EvLdapSearch "c1";
   EvLdapResult; EvLdapUnbind].
Proof.
  exact (searches_echo_the_cookies Examples.two_pages
           [Examples.page ["A@x.com"; "b@x.com"] [Examples.paged "c1"]]
           (Examples.page ["C@X.COM"] [Examples.paged ""]) []
           eq_refl eq_refl eq_refl eq_refl eq_refl).
Defined.

(* ===================================================================== *)
(** ** Notification and revocation, seen from the platform
       (lines 122-146, 180-191) *)
(* ===================================================================== *)

Lemma message_loop_result w message keys :
  (message_loop w message keys).2 =
  if forallb (λ owner, post_message_ok w owner message) keys
  then Ok tt else Raise HTTPError.
Proof.
  induction keys as [|owner keys IH]; [done|].
  cbn [message_loop forallb]. rewrite !bindM_split. cbn [tell fst snd].
  by destruct (post_message_ok w owner message); cbn [ret raise fst snd andb].
Qed.

Lemma recipients_posts message keys :
  recipients ((λ owner, EvPostMessage owner message) <$> keys) = keys.
Proof.
  unfold recipients. induction keys as [|owner keys IH]; [done|].
  by rewrite fmap_cons, omap_head, IH.
Qed.

Lemma map_fst_map_to_list {V} (m : gmap pykey V) :
  map fst (map_to_list m) = (map_to_list m).*1.
Proof. induction (map_to_list m) as [|x l IH]; [done|]. simpl. by rewrite IH. Qed.

Lemma owners_are_notified_once_aux w message (owners : gmap pykey pyval) :
  ((slack_message_owners w message owners).2 = Ok true
     ↔ ∀ owner, owner ∈ dom owners → post_message_ok w owner message = true)
  ∧ ((slack_message_owners w message owners).2 = Ok true →
       NoDup (recipients (slack_message_owners w message owners).1)
       ∧ ∀ owner, owner ∈ recipients (slack_message_owners w message owners).1
                  ↔ owner ∈ dom owners).
Proof.
  assert (∀ owner, owner ∈ map fst (map_to_list owners) ↔ owner ∈ dom owners) as Hkeys.
  { intros owner. rewrite map_fst_map_to_list, elem_of_dom.
    rewrite list_elem_of_fmap. split.
    - intros ([k v] & -> & Hin). apply elem_of_map_to_list in Hin. by eexists.
    - intros [v Hv]. exists (owner, v). split; [done|]. by apply elem_of_map_to_list. }
  assert ((slack_message_owners w message owners).2 = Ok true
          ↔ forallb (λ owner, post_message_ok w owner message)
                    (map fst (map_to_list owners)) = true) as Hresult.
  { unfold slack_message_owners. rewrite bindM_split, message_loop_result.
    by destruct (forallb _ _). }
  split.
  - rewrite Hresult, forallb_forall. split.
    + intros H owner Hin. apply H, list_elem_of_In, Hkeys, Hin.
    + intros H owner Hin. apply H, Hkeys, list_elem_of_In, Hin.
  - rewrite Hresult. intros Hall.
    unfold slack_message_owners.
    rewrite message_loop_served
      by (apply Forall_forall; intros o Ho; rewrite forallb_forall in Hall;
          by apply Hall, list_elem_of_In).
    cbn [bindM ret fst]. rewrite app_nil_r, recipients_posts. split; [|exact Hkeys].
    rewrite map_fst_map_to_list. apply NoDup_fst_map_to_list.
Qed.

(** X9: [slack_message_owners] returns exactly when the platform
    accepts the message for every owner, and it has then sent one
    message to each key of the dictionary and to nobody else. *)
Theorem owners_are_notified_once w message (owners : gmap pykey pyval) :
  ((slack_message_owners w message owners).2 = Ok true
     ↔ ∀ owner, owner ∈ dom owners → post_message_ok w owner message = true)
  ∧ ((slack_message_owners w message owners).2 = Ok true →
       NoDup (recipients (slack_message_owners w message owners).1)
       ∧ ∀ owner, owner ∈ recipients (slack_message_owners w message owners).1
                  ↔ owner ∈ dom owners).
Proof. apply owners_are_notified_once_aux. Qed.

Lemma slack_message_owners_returns_true w message owners b :
  (slack_message_owners w message owners).2 = Ok b → b = true.
Proof.
  unfold slack_message_owners. rewrite bindM_split.
  destruct (message_loop _ _ _).2; cbn [ret snd]; congruence.
Qed.

Lemma disable_slack_user_cases w id email reason owners :
  disable_slack_user w id email reason owners =
  if scim_delete_ok w id
  then (EvScimDelete id :: EvLogInfo (DisabledText id email reason)
          :: (slack_message_owners w (DisabledText id email reason) owners).1,
        (slack_message_owners w (DisabledText id email reason) owners).2)
  else ([EvScimDelete id], Raise HTTPError).
Proof.
  unfold disable_slack_user. destruct (scim_delete_ok w id); [|done].
  cbn [tell ret bindM app].
  destruct (slack_message_owners w _ owners) as [t [b|e]] eqn:Hsent;
    cbn [fst snd]; [|done].
  simpl. rewrite ?app_nil_r. do 2 f_equal. symmetry.
  apply (slack_message_owners_returns_true w (DisabledText id email reason) owners).
  by rewrite Hsent.
Qed.

Lemma deleted_ids_none t :
  Forall (λ ev, is_delete ev = false) t → deleted_ids t = [].
Proof.
  unfold deleted_ids. induction 1 as [|ev t Hev _ IH]; [done|].
  rewrite omap_head, IH. by destruct ev.
Qed.

Lemma deleted_ids_app t t' : deleted_ids (t ++ t') = deleted_ids t ++ deleted_ids t'.
Proof. apply omap_app. Qed.

Lemma slack_message_owners_no_delete w message owners :
  Forall (λ ev, is_delete ev = false) (slack_message_owners w message owners).1.
Proof.
  unfold slack_message_owners.
  apply bindM_trace; [|intros ?; constructor]. by apply message_loop_trace.
Qed.

(** X10: [disable_slack_user] sends its DELETE first and sends one
    DELETE only; when the platform rejects it, nothing is logged and no
    owner is written to; when a later message is rejected, the
    exception is raised with the DELETE already sent. *)
Theorem revoke_comes_first w id email reason owners :
  let run := disable_slack_user w id email reason owners in
  head run.1 = Some (EvScimDelete id)
  ∧ deleted_ids run.1 = [id]
  ∧ (scim_delete_ok w id = false → run = ([EvScimDelete id], Raise HTTPError))
  ∧ (run.2 = Ok true
       ↔ scim_delete_ok w id = true
         ∧ ∀ owner, owner ∈ dom owners →
             post_message_ok w owner (DisabledText id email reason) = true).
Proof.
  intros run. subst run. rewrite disable_slack_user_cases.
  destruct (owners_are_notified_once_aux w (DisabledText id email reason) owners)
    as [Hiff _].
  destruct (scim_delete_ok w id); cbn [fst snd head].
  - split_and!; [done| |done|].
    + unfold deleted_ids. rewrite !omap_head. cbn [option_list app].
      f_equal. apply deleted_ids_none, slack_message_owners_no_delete.
    + rewrite Hiff. naive_solver.
  - split_and!; try done. naive_solver.
Qed.

(* ===================================================================== *)
(** ** What each mode sends (lines 153-156, 180-184) *)
(* ===================================================================== *)

Lemma quiet_no_delete t : quiet t → Forall (λ ev, is_delete ev = false) t.
Proof. intros H. eapply Forall_impl; [exact H|]. by intros []. Qed.

Lemma reads_no_delete t : reads t → Forall (λ ev, is_delete ev = false) t.
Proof. intros H. eapply Forall_impl; [exact H|]. by intros []. Qed.

Lemma sync_legacy_no_delete cfg w :
  use_scim_api cfg = false →
  Forall (λ ev, is_delete ev = false) (sync_slack_ldap cfg w).1.
Proof.
  intros Hmode. unfold sync_slack_ldap.
  apply bindM_trace; [apply quiet_no_delete, candidates_quiet|intros found].
  induction (map_to_list found.2) as [|[email value] items IH]; cbn [act_loop].
  - constructor.
  - apply bindM_trace; [|by intros _].
    unfold act_on. rewrite Hmode. unfold notify_admin_invalid_user.
    apply bindM_trace; [by repeat constructor|intros _].
    apply bindM_trace; [apply slack_message_owners_no_delete|intros ?; constructor].
Qed.

Lemma escalate_no_delete w error :
  Forall (λ ev, is_delete ev = false) (escalate w error).1.
Proof.
  unfold escalate.
  apply bindM_trace; [apply reads_no_delete, get_owner_users_reads|intros owners].
  apply bindM_trace; [apply slack_message_owners_no_delete|intros ?; constructor].
Qed.

(** X11: with [USE_SCIM_API] off, no run of the main loop ever sends a
    DELETE: accounts that the directory does not know are reported to
    the owners and keep their sessions. *)
Theorem legacy_mode_never_deletes cfg worlds c :
  use_scim_api cfg = false →
  deleted_ids (main_loop cfg worlds c).1 = [].
Proof.
  intros Hmode. apply deleted_ids_none.
  revert c. induction worlds as [|w worlds IH]; intros c; cbn [main_loop].
  - constructor.
  - apply bindM_trace; [|intros ?; apply IH].
    rewrite iteration_cases.
    pose proof (sync_legacy_no_delete cfg w Hmode) as Hsync.
    pose proof (escalate_no_delete w) as Hesc.
    destruct (sync_slack_ldap cfg w).2 as [|error]; cbn [fst].
    + apply Forall_app. split; [done|by repeat constructor].
    + destruct (_ =? _)%nat; [destruct (escalate w error).2|]; cbn [fst];
        repeat first [apply Forall_app; split | apply Forall_cons; split
                     | done | apply Hesc | by repeat constructor].
Qed.

Lemma legacy_mode_never_deletes_witness :
  deleted_ids (main_loop Examples.legacy_cfg
                 [Examples.healthy; Examples.ldap_down; Examples.healthy] 3).1 = [].
Proof. apply legacy_mode_never_deletes. reflexivity. Defined.

Lemma act_loop_all_accepted cfg w owners items :
  use_scim_api cfg = true →
  (∀ id, scim_delete_ok w id = true) →
  (∀ owner message, post_message_ok w owner message = true) →
  act_loop cfg w owners items =
  (items ≫= λ item,
     EvScimDelete (slack_id item.2)
     :: EvLogInfo (DisabledText (slack_id item.2) item.1 (reason item.2))
     :: ((λ owner, EvPostMessage owner
                     (DisabledText (slack_id item.2) item.1 (reason item.2)))
           <$> map fst (map_to_list owners)),
   Ok tt).
Proof.
  intros Hmode Hdelete Hpost.
  induction items as [|[email value] items IH]; [done|].
  cbn [act_loop act_on]. rewrite Hmode, IH, disable_slack_user_cases, Hdelete.
  unfold slack_message_owners.
  rewrite message_loop_served by (apply Forall_forall; intros; apply Hpost).
  cbn [bindM ret fst snd]. rewrite !app_nil_r, bind_cons. done.
Qed.

Lemma deleted_ids_of_revocation id message keys :
  deleted_ids (EvScimDelete id :: EvLogInfo message
                 :: ((λ owner, EvPostMessage owner message) <$> keys)) = [id].
Proof.
  change (EvScimDelete id :: EvLogInfo message :: ?l)
    with ([EvScimDelete id; EvLogInfo message] ++ l).
  rewrite deleted_ids_app, (deleted_ids_none (_ <$> keys)); [done|].
  apply Forall_fmap, Forall_forall. by intros.
Qed.

(** X12: with [USE_SCIM_API] on, when the platform accepts every DELETE
    and every message, the cycle returns, it has sent exactly one
    DELETE per binding of the candidate dictionary, with the id stored
    in that binding, and one message per candidate and owner. *)
Theorem every_candidate_is_deleted_once cfg w owners (C : gmap string deletion) :
  use_scim_api cfg = true →
  (candidates cfg w).2 = Ok (owners, C) →
  (∀ id, scim_delete_ok w id = true) →
  (∀ owner message, post_message_ok w owner message = true) →
  (sync_slack_ldap cfg w).2 = Ok tt
  ∧ deleted_ids (sync_slack_ldap cfg w).1 = (λ item, slack_id item.2) <$> map_to_list C
  ∧ length (recipients (sync_slack_ldap cfg w).1) = size C * size owners.
Proof.
  intros Hmode Hfound Hdelete Hpost. unfold sync_slack_ldap.
  pose proof (candidates_quiet cfg w) as Hquiet.
  rewrite bindM_split, Hfound. cbn [fst snd].
  rewrite (act_loop_all_accepted _ _ _ _ Hmode Hdelete Hpost). cbn [fst snd].
  split_and!; [done| |].
  - rewrite deleted_ids_app, (deleted_ids_none _ (quiet_no_delete _ Hquiet)).
    cbn [app]. induction (map_to_list C) as [|item items IH]; [done|].
    by rewrite bind_cons, fmap_cons, deleted_ids_app, IH, deleted_ids_of_revocation.
  - assert (recipients (candidates cfg w).1 = []) as Hnone.
    { clear -Hquiet. unfold recipients.
      induction Hquiet as [|ev t Hev _ IH]; [done|].
      rewrite omap_head, IH. by destruct ev. }
    unfold recipients in *. rewrite omap_app, Hnone. cbn [app].
    rewrite <- (length_map_to_list C), <- (length_map_to_list owners).
    induction (map_to_list C) as [|item items IH]; [done|].
    rewrite bind_cons, omap_app, length_app, IH, !omap_head. cbn [option_list app].
    pose proof (recipients_posts
                  (DisabledText (slack_id item.2) item.1 (reason item.2))
                  (map fst (map_to_list owners))) as Hposts.
    unfold recipients in Hposts. rewrite Hposts.
    change (option_list None ++ option_list None ++ ?l) with l.
    rewrite List.length_map. simpl. lia.
Qed.

Lemma every_candidate_is_deleted_once_witness :
  (sync_slack_ldap Examples.scim_cfg Examples.healthy).2 = Ok tt
  ∧ length (deleted_ids (sync_slack_ldap Examples.scim_cfg Examples.healthy).1) = 2
  ∧ length (recipients (sync_slack_ldap Examples.scim_cfg Examples.healthy).1) = 4.
Proof.
  pose (found := match (candidates Examples.scim_cfg Examples.healthy).2 with
                 | Ok found => found
                 | Raise _ => (∅, ∅)
                 end).
  destruct (every_candidate_is_deleted_once Examples.scim_cfg Examples.healthy
              found.1 found.2 eq_refl) as (Hok & Hdeleted & Hsent).
  - vm_compute. reflexivity.
  - done.
  - done.
  - split_and!; [exact Hok| rewrite Hdeleted | rewrite Hsent]; vm_compute; reflexivity.
Defined.

(* ===================================================================== *)
(** ** The order of the reads (lines 151-157) *)
(* ===================================================================== *)

Lemma http_get_json_no_ldap ep response field :
  Forall (λ ev, is_ldap ev = false) (http_get_json ep response field).1.
Proof. unfold http_get_json. trace_tac; done. Qed.

Lemma get_guest_users_no_ldap response :
  Forall (λ ev, is_ldap ev = false) (get_guest_users response).1.
Proof.
  unfold get_guest_users.
  apply bindM_trace; [apply http_get_json_no_ldap|intros ?; apply lift_trace].
Qed.

Lemma get_owner_users_no_ldap response :
  Forall (λ ev, is_ldap ev = false) (get_owner_users response).1.
Proof.
  unfold get_owner_users.
  apply bindM_trace; [apply http_get_json_no_ldap|intros ?; apply lift_trace].
Qed.

Lemma listing_no_ldap cfg w : Forall (λ ev, is_ldap ev = false) (listing cfg w).1.
Proof.
  unfold listing, get_all_slack_users_scim, get_all_slack_users.
  destruct (use_scim_api cfg); apply http_get_json_no_ldap.
Qed.

Lemma fetch_without_directory cfg w :
  is_ok (get_guest_users (guests_response w)).2
    && is_ok (get_owner_users (owners_response w)).2
    && is_ok (listing cfg w).2 = false →
  is_ok (fetch cfg w).2 = false ∧ Forall (λ ev, is_ldap ev = false) (fetch cfg w).1.
Proof.
  pose proof (get_guest_users_no_ldap (guests_response w)) as Hg.
  pose proof (get_owner_users_no_ldap (owners_response w)) as Ho.
  pose proof (listing_no_ldap cfg w) as Hl.
  unfold fetch. rewrite bindM_split.
  destruct (get_guest_users _).2; cbn [is_ok andb fst snd]; [|done].
  rewrite bindM_split.
  destruct (get_owner_users _).2; cbn [is_ok andb fst snd];
    [|intros _; split; [done|by apply Forall_app]].
  rewrite bindM_split.
  destruct (listing cfg w).2; cbn [is_ok andb fst snd]; [done|].
  intros _. split; [done|]. apply Forall_app. split; [done|by apply Forall_app].
Qed.

(** X13: the directory is contacted only once the three platform
    listings (guests, owners, accounts) have been read successfully:
    when one of them raises, the cycle ends without any LDAP
    traffic. *)
Theorem directory_is_read_last cfg w ev :
  ev ∈ (sync_slack_ldap cfg w).1 →
  is_ldap ev = true →
  is_ok (get_guest_users (guests_response w)).2 = true
  ∧ is_ok (get_owner_users (owners_response w)).2 = true
  ∧ is_ok (listing cfg w).2 = true.
Proof.
  intros Hin Hldap.
  destruct (is_ok (get_guest_users (guests_response w)).2
            && is_ok (get_owner_users (owners_response w)).2
            && is_ok (listing cfg w).2) eqn:Hreads.
  - apply andb_prop in Hreads as [Hreads ?]. by apply andb_prop in Hreads as [? ?].
  - exfalso. destruct (fetch_without_directory _ _ Hreads) as [Hfail Hquiet].
    unfold sync_slack_ldap, candidates in Hin.
    rewrite ?bindM_split in Hin. cbn [tell fst snd] in Hin.
    rewrite ?bindM_split in Hin.
    destruct (fetch cfg w).2; [done|]. cbn [fst snd app] in Hin.
    apply elem_of_cons in Hin as [->|Hin]; [done|].
    eapply Forall_forall in Hquiet; [|exact Hin]. congruence.
Qed.

Lemma directory_is_read_last_witness :
  is_ok (get_guest_users (guests_response Examples.healthy)).2 = true
  ∧ is_ok (get_owner_users (owners_response Examples.healthy)).2 = true
  ∧ is_ok (listing Examples.scim_cfg Examples.healthy).2 = true.
Proof.
  apply (directory_is_read_last Examples.scim_cfg Examples.healthy EvLdapBind).
  - vm_compute. apply list_elem_of_In. simpl. tauto.
  - reflexivity.
Defined.

(* ===================================================================== *)
(** ** Runs of the main loop (lines 197-212) *)
(* ===================================================================== *)

Lemma sleeps_app t t' : sleeps (t ++ t') = sleeps t + sleeps t'.
Proof. unfold sleeps. by rewrite filter_app, length_app. Qed.

Lemma sleeps_none t : Forall (λ ev, is_sleep ev = false) t → sleeps t = 0.
Proof.
  unfold sleeps. induction 1 as [|ev t Hev _ IH]; [done|].
  rewrite filter_cons. case_decide; [congruence|done].
Qed.

Lemma cycle_trace_no_sleep t : cycle_trace t → Forall (λ ev, is_sleep ev = false) t.
Proof. intros H. eapply Forall_impl; [exact H|]. by intros []. Qed.

Lemma escalate_no_sleep w error :
  Forall (λ ev, is_sleep ev = false) (escalate w error).1.
Proof.
  unfold escalate, slack_message_owners.
  apply bindM_trace; [|intros owners].
  { eapply Forall_impl; [apply get_owner_users_reads|]. by intros []. }
  apply bindM_trace; [|intros ?; constructor].
  apply bindM_trace; [|intros ?; constructor]. by apply message_loop_trace.
Qed.

Lemma iteration_sleeps cfg w c :
  sleeps (iteration cfg w c).1 = if is_ok (iteration cfg w c).2 then 1 else 0.
Proof.
  rewrite iteration_cases.
  pose proof (sleeps_none _ (cycle_trace_no_sleep _ (sync_cycle_trace cfg w))) as Hsync.
  pose proof (λ error, sleeps_none _ (escalate_no_sleep w error)) as Hesc.
  destruct (sync_slack_ldap cfg w).2 as [|error]; cbn [fst snd is_ok].
  - by rewrite sleeps_app, Hsync.
  - destruct (_ =? _)%nat; [destruct (escalate w error).2|]; cbn [fst snd is_ok].
    + change (EvLogException error :: ?l) with ([EvLogException error] ++ l).
      by rewrite !sleeps_app, Hsync, Hesc.
    + change (EvLogException error :: ?l) with ([EvLogException error] ++ l).
      by rewrite !sleeps_app, Hsync, Hesc.
    + by rewrite sleeps_app, Hsync.
Qed.

(** X14: every iteration that the loop completes sleeps exactly once,
    whether its cycle returned or raised; a run that an exception
    leaves has slept fewer times than it had iterations to make. *)
Theorem one_sleep_per_completed_iteration cfg worlds c :
  match (main_loop cfg worlds c).2 with
  | Ok _ => sleeps (main_loop cfg worlds c).1 = length worlds
  | Raise _ => sleeps (main_loop cfg worlds c).1 < length worlds
  end.
Proof.
  revert c. induction worlds as [|w worlds IH]; intros c; [done|].
  cbn [main_loop]. rewrite bindM_split.
  pose proof (iteration_sleeps cfg w c) as Hiter.
  destruct (iteration cfg w c).2 as [c1|e]; cbn [is_ok fst snd length] in *.
  - specialize (IH c1). rewrite sleeps_app, Hiter.
    destruct (main_loop cfg worlds c1).2; lia.
  - lia.
Qed.

Lemma bindM_ext {A B} (m : M A) (k k' : A → M B) :
  (∀ a, k a = k' a) → bindM m k = bindM m k'.
Proof. intros H. destruct m as [t [a|e]]; [|done]. simpl. by rewrite H. Qed.

Lemma main_loop_app cfg worlds worlds' c :
  main_loop cfg (worlds ++ worlds') c =
  bindM (main_loop cfg worlds c) (main_loop cfg worlds').
Proof.
  revert c. induction worlds as [|w worlds IH]; intros c.
  - cbn [main_loop app]. by rewrite bindM_ret_l.
  - rewrite <- app_comm_cons. cbn [main_loop]. rewrite bindM_assoc.
    apply bindM_ext. intros c1. apply IH.
Qed.

Lemma iteration_counter cfg w c c' :
  (iteration cfg w c).2 = Ok c' →
  c' = if is_ok (sync_slack_ldap cfg w).2 then 0 else c + 1.
Proof.
  rewrite iteration_cases.
  destruct (sync_slack_ldap cfg w).2 as [|error]; cbn [is_ok snd]; [congruence|].
  destruct (_ =? _)%nat; [destruct (escalate w error).2|]; cbn [snd]; congruence.
Qed.

Lemma main_loop_failures cfg worlds : ∀ c c',
  Forall (λ w, is_ok (sync_slack_ldap cfg w).2 = false) worlds →
  (main_loop cfg worlds c).2 = Ok c' →
  c' = c + length worlds.
Proof.
  induction worlds as [|w worlds IH]; intros c c' Hfail.
  - cbn. intros [= <-]. lia.
  - apply Forall_cons in Hfail as [Hw Hfail]. cbn [main_loop]. rewrite bindM_split.
    destruct (iteration cfg w c).2 as [c1|] eqn:Hiter; [|done]. cbn [snd].
    intros Hrest. apply iteration_counter in Hiter. rewrite Hw in Hiter.
    rewrite (IH _ _ Hfail Hrest), Hiter. cbn [length]. lia.
Qed.

(** X15: when a run of the main loop is not left by an exception, the
    counter it ends with is the number of cycles that raised since the
    last cycle that returned (added to the initial counter when no
    cycle returned). *)
Theorem counter_counts_failures_since_last_success cfg before w after c c' :
  Forall (λ w', is_ok (sync_slack_ldap cfg w').2 = false) after →
  ((main_loop cfg after c).2 = Ok c' → c' = c + length after)
  ∧ (is_ok (sync_slack_ldap cfg w).2 = true →
     (main_loop cfg (before ++ w :: after) c).2 = Ok c' →
     c' = length after).
Proof.
  intros Hafter. split; [by apply main_loop_failures|].
  intros Hw. rewrite main_loop_app, bindM_split.
  destruct (main_loop cfg before c).2 as [c0|]; [|done]. cbn [snd main_loop].
  rewrite bindM_split.
  destruct (iteration cfg w c0).2 as [c1|] eqn:Hiter; [|done]. cbn [snd].
  intros Hrest. apply iteration_counter in Hiter. rewrite Hw in Hiter. subst c1.
  by rewrite (main_loop_failures _ _ _ _ Hafter Hrest).
Qed.

Lemma counter_counts_failures_since_last_success_witness :
  let worlds := [Examples.ldap_down] ++ Examples.healthy
                  :: [Examples.ldap_down; Examples.ldap_down] in
  (main_loop Examples.scim_cfg worlds 7).2 = Ok 2
  ∧ 2 = length [Examples.ldap_down; Examples.ldap_down].
Proof.
  intros worlds.
  assert ((main_loop Examples.scim_cfg worlds 7).2 = Ok 2) as Hrun
    by (vm_compute; reflexivity).
  split; [exact Hrun|].
  destruct (counter_counts_failures_since_last_success Examples.scim_cfg
              [Examples.ldap_down] Examples.healthy
              [Examples.ldap_down; Examples.ldap_down] 7 2) as [_ H].
  - repeat constructor.
  - apply H; [reflexivity|exact Hrun].
Defined.

Lemma iteration_absorbs_witness :
  is_ok (iteration Examples.scim_cfg Examples.slack_down 0).2 = true.
Proof. apply iteration_absorbs. vm_compute. discriminate. Defined.

Lemma escalation_failure_leaves_loop_witness :
  (main_loop Examples.scim_cfg [Examples.slack_down; Examples.healthy] 3).2
    = Raise HTTPError.
Proof.
  apply (escalation_failure_leaves_loop Examples.scim_cfg Examples.slack_down
           [Examples.healthy] 3 HTTPError HTTPError); reflexivity.
Defined.

Lemma unbind_only_after_success_witness :
  EvLdapUnbind ∈ (get_all_active_ad_users Examples.two_pages).1
  ∧ EvLdapUnbind ∉ (get_all_active_ad_users Examples.paging_lost).1.
Proof.
  split.
  - apply unbind_only_after_success. reflexivity.
  - intros H. apply unbind_only_after_success in H. discriminate H.
Defined.

Lemma owners_are_notified_once_witness :
  (slack_message_owners Examples.healthy LookingText
     {[KStr "O1" := PStr "boss@x.com"; KStr "O2" := PStr "chief@x.com"]}).2 = Ok true.
Proof.
  apply owners_are_notified_once. intros owner _. reflexivity.
Defined.

Lemma revoke_comes_first_witness :
  disable_slack_user Examples.revoke_rejected (PStr "U2") "b@x.com"
    "they do not exist in corp LDAP."
    {[KStr "O1" := PStr "boss@x.com"]}
  = ([EvScimDelete (PStr "U2")], Raise HTTPError).
Proof.
  apply (revoke_comes_first Examples.revoke_rejected (PStr "U2") "b@x.com"
           "they do not exist in corp LDAP." {[KStr "O1" := PStr "boss@x.com"]}).
  reflexivity.
Defined.

Lemma one_sleep_per_completed_iteration_witness :
  sleeps (main_loop Examples.scim_cfg
            [Examples.healthy; Examples.ldap_down; Examples.healthy] 0).1 = 3.
Proof.
  pose proof (one_sleep_per_completed_iteration Examples.scim_cfg
                [Examples.healthy; Examples.ldap_down; Examples.healthy] 0) as H.
  assert ((main_loop Examples.scim_cfg
             [Examples.healthy; Examples.ldap_down; Examples.healthy] 0).2 = Ok 0)
    as Hrun by (vm_compute; reflexivity).
  rewrite Hrun in H. exact H.
Defined.
